(** * Connect 4 on Steroids: the simulation core and the client session layer

    A shallow embedding of
    - the game simulation of the RabbitMQ demo ([createGameRoom],
      [getNextPlayer], [makeMove], [usePowerUp], [checkGameOver]),
    - the client's [WebSocketService] ([send], [attemptReconnect], the
      handler notification loops), and
    - the [useGame] hook (the message handlers and the [makeMove] /
      [usePowerUp] commands),
    followed by the properties of the specification that these functions
    decide. *)

From stdpp Require Import base option list strings pretty gmap.
From Stdlib Require Import Ascii ZArith QArith Lia Sorted.

Open Scope string_scope.
Open Scope list_scope.
Open Scope Z_scope.
Open Scope nat_scope.

(** ** JavaScript values shared by all parts *)

(** The outcome of running a JavaScript function body: it returns a value
    or it throws. *)
Inductive result (A : Type) : Type :=
| Ok (a : A)
| Throw (e : string).
Arguments Ok {A} a.
Arguments Throw {A} e.

Definition is_ok {A} (r : result A) : bool :=
  match r with Ok _ => true | Throw _ => false end.

(** [Math.floor(Math.random() * n)]: an integer draw in [0, n).  The
    entropy behind [Math.random()] is an explicit argument [r]; every
    value below [n] is reached by some [r].  For [n = 0] the product is
    [0]. *)
Definition rand_below (n r : nat) : nat :=
  match n with
  | O => 0
  | S _ => r mod n
  end.

(** [arr.findIndex(f)]: the first index whose element satisfies [f], or
    [-1]. *)
Fixpoint findIndex_from {A} (f : A -> bool) (l : list A) (i : Z) : Z :=
  match l with
  | [] => (-1)%Z
  | x :: l' => if f x then i else findIndex_from f l' (i + 1)%Z
  end.

Definition findIndex {A} (f : A -> bool) (l : list A) : Z :=
  findIndex_from f l 0%Z.

(** A JavaScript array with holes: reading a hole or past the end gives
    [undefined] (here [None]); writing past the end extends the array with
    holes. *)
Definition js_get {A} (a : list (option A)) (i : nat) : option A :=
  mjoin (a !! i).

Definition js_set {A} (a : list (option A)) (i : nat) (v : A) : list (option A) :=
  if i <? length a then <[i := Some v]> a
  else a ++ replicate (i - length a) None ++ [Some v].

(** Code that mutates a state of type [S] and may throw: the state after
    the call and the outcome.  A throw keeps the mutations made so far. *)
Definition M (S A : Type) : Type := S -> S * result A.

Definition ret {S A} (a : A) : M S A := fun s => (s, Ok a).

Definition throw {S A} (e : string) : M S A := fun s => (s, Throw e).

Definition bind {S A B} (c : M S A) (k : A -> M S B) : M S B :=
  fun s =>
    match c s with
    | (s', Ok a) => k a s'
    | (s', Throw e) => (s', Throw e)
    end.

Definition gets {S A} (f : S -> A) : M S A := fun s => (s, Ok (f s)).

Definition modify {S} (f : S -> S) : M S unit := fun s => (f s, Ok tt).

(** [try { body } catch (error) { handler }] *)
Definition try_catch {S A} (body : M S A) (handler : string -> M S A) : M S A :=
  fun s =>
    match body s with
    | (s', Ok a) => (s', Ok a)
    | (s', Throw e) => handler e s'
    end.

(** [collection.forEach(f)]: in insertion order, stopping at a throw. *)
Fixpoint forEach {S A} (f : A -> M S unit) (l : list A) : M S unit :=
  match l with
  | [] => ret tt
  | x :: l' => bind (f x) (fun _ => forEach f l')
  end.

Notation "'do' x <- c ; k" := (bind c (fun x => k))
  (at level 10, x name, c at level 100, k at level 200, only parsing).
Notation "c ;; k" := (bind c (fun _ => k))
  (at level 100, k at level 200, right associativity, only parsing).

(** ** The game simulation (RabbitMQ demo) *)
Module Simulation.

Record Player := mkPlayer {
  id : string;
  name : string;
  color : string
}.

(** [game.board]: one array of player ids per column, bottom disc first. *)
Abbreviation Board := (list (option (list string))).

Record Game := mkGame {
  roomId : string;
  players : list Player;
  currentTurn : string;
  turnTimeLimit : nat;
  isActive : bool;
  board : Board;
  startTime : Z;
  lastEventTime : Z;
  eventCount : nat;
  gameOver : bool
}.

Definition set_board (b : Board) (g : Game) : Game :=
  mkGame (roomId g) (players g) (currentTurn g) (turnTimeLimit g) (isActive g)
         b (startTime g) (lastEventTime g) (eventCount g) (gameOver g).

Definition set_currentTurn (t : string) (g : Game) : Game :=
  mkGame (roomId g) (players g) t (turnTimeLimit g) (isActive g)
         (board g) (startTime g) (lastEventTime g) (eventCount g) (gameOver g).

Definition set_lastEventTime (t : Z) (g : Game) : Game :=
  mkGame (roomId g) (players g) (currentTurn g) (turnTimeLimit g) (isActive g)
         (board g) (startTime g) t (eventCount g) (gameOver g).

Definition set_eventCount (n : nat) (g : Game) : Game :=
  mkGame (roomId g) (players g) (currentTurn g) (turnTimeLimit g) (isActive g)
         (board g) (startTime g) (lastEventTime g) n (gameOver g).

Definition set_gameOver (b : bool) (g : Game) : Game :=
  mkGame (roomId g) (players g) (currentTurn g) (turnTimeLimit g) (isActive g)
         (board g) (startTime g) (lastEventTime g) (eventCount g) b.

Definition POWER_UP_TYPES : list string :=
  ["double_drop"; "column_bomb"; "gravity_flip"; "undo_move"; "column_block"].

(** [getNextPlayer(game)].  With no player the index is [NaN], the lookup
    is [undefined] and reading [.id] throws. *)
Definition getNextPlayer (g : Game) : result string :=
  let currentIndex := findIndex (fun p => String.eqb (id p) (currentTurn g)) (players g) in
  match players g with
  | [] => Throw "TypeError"
  | _ :: _ =>
      let nextIndex := Z.rem (currentIndex + 1) (Z.of_nat (length (players g))) in
      match players g !! Z.to_nat nextIndex with
      | Some p => Ok (id p)
      | None => Throw "TypeError"
      end
  end.

(** [makeMove(game, playerId, column)]; [column] is an array index, as
    every caller passes one, and [now] is the reading of [Date.now()].  The
    result is the game after the call and what the call returned:
    [Some (column, row)], or [None] for [null]. *)
Definition makeMove (g : Game) (playerId : string) (column : nat) (now : Z)
  : Game * result (option (nat * nat)) :=
  let g0 :=
    match js_get (board g) column with
    | None => set_board (js_set (board g) column []) g
    | Some _ => g
    end in
  let stack := default [] (js_get (board g0) column) in
  let row := length stack in
  if 6 <=? row then (g0, Ok None)
  else
    let g1 := set_board (js_set (board g0) column (stack ++ [playerId])) g0 in
    match getNextPlayer g1 with
    | Throw e => (g1, Throw e)
    | Ok next =>
        let g2 := set_currentTurn next g1 in
        let g3 := set_lastEventTime now g2 in
        let g4 := set_eventCount (S (eventCount g3)) g3 in
        (g4, Ok (Some (column, row)))
    end.

(** The [effect] object that [usePowerUp] builds; [EffNone] is [{}]. *)
Inductive Effect : Type :=
| EffNone
| EffDoubleDrop (drop1 drop2 : option (nat * nat))
| EffBombed (column : nat)
| EffFlipped
| EffUndone (column : nat)
| EffBlocked (column : nat).

(** Truthiness of [effect.undone] and [effect.bombed], as the callers test
    them. *)
Definition effect_undone (e : Effect) : bool :=
  match e with EffUndone _ => true | _ => false end.

Definition effect_bombed (e : Effect) : bool :=
  match e with EffBombed _ => true | _ => false end.

(** What one call of [usePowerUp] reads from its environment, in program
    order: the entropy of each [Math.random()] and the readings of
    [Date.now()] (one in each [makeMove], one at the end). *)
Record PowerUpDraws := mkDraws {
  d_kind : nat;
  d_target : nat;
  d_col1 : nat;
  d_col2 : nat;
  d_undo : nat;
  t_drop1 : Z;
  t_drop2 : Z;
  t_end : Z
}.

(** The body of the [switch (powerUpId)] of [usePowerUp]. *)
Definition powerUpSwitch (g : Game) (playerId powerUpId : string)
    (targetColumn : nat) (d : PowerUpDraws) : Game * result Effect :=
  if String.eqb powerUpId "double_drop" then
    let col1 := rand_below 7 (d_col1 d) in
    let col2 := rand_below 7 (d_col2 d) in
    match makeMove g playerId col1 (t_drop1 d) with
    | (g1, Throw e) => (g1, Throw e)
    | (g1, Ok drop1) =>
        match makeMove g1 playerId col2 (t_drop2 d) with
        | (g2, Throw e) => (g2, Throw e)
        | (g2, Ok drop2) => (g2, Ok (EffDoubleDrop drop1 drop2))
        end
    end
  else if String.eqb powerUpId "column_bomb" then
    (set_board (js_set (board g) targetColumn []) g, Ok (EffBombed targetColumn))
  else if String.eqb powerUpId "gravity_flip" then
    (g, Ok EffFlipped)
  else if String.eqb powerUpId "undo_move" then
    let randomCol := rand_below 7 (d_undo d) in
    match js_get (board g) randomCol with
    | Some stack =>
        if 0 <? length stack then
          (set_board (js_set (board g) randomCol (removelast stack)) g,
           Ok (EffUndone randomCol))
        else (g, Ok EffNone)
    | None => (g, Ok EffNone)
    end
  else if String.eqb powerUpId "column_block" then
    (g, Ok (EffBlocked targetColumn))
  else (g, Ok EffNone).

(** [POWER_UP_TYPES[Math.floor(Math.random() * POWER_UP_TYPES.length)]].
    An index past the table would read [undefined], which matches no case;
    it is the empty string here. *)
Definition chosenPowerUp (d : PowerUpDraws) : string :=
  default "" (POWER_UP_TYPES !! rand_below (length POWER_UP_TYPES) (d_kind d)).

(** [usePowerUp(game, playerId)] *)
Definition usePowerUp (g : Game) (playerId : string) (d : PowerUpDraws)
  : Game * result (string * Effect) :=
  let powerUpId := chosenPowerUp d in
  let targetColumn := rand_below 7 (d_target d) in
  match powerUpSwitch g playerId powerUpId targetColumn d with
  | (g1, Throw e) => (g1, Throw e)
  | (g1, Ok effect) =>
      let g2 := set_lastEventTime (t_end d) g1 in
      let g3 := set_eventCount (S (eventCount g2)) g2 in
      (g3, Ok (powerUpId, effect))
  end.

Definition PLAYER_COLORS : list string :=
  ["red"; "yellow"; "green"; "blue"; "purple"; "orange"].

(** The players built by the loop of [createGameRoom], for
    [i = first, ..., first + n - 1]; [uuid k] is the string returned by the
    [k]-th call of [uuidv4()] (call 0 names the room, call [i + 1] names
    player [i]). *)
Fixpoint makePlayers (uuid : nat -> string) (first n : nat) : list Player :=
  match n with
  | O => []
  | S n' =>
      mkPlayer ("player" +:+ pretty (first + 1) +:+ "_" +:+ String.substring 0 4 (uuid (first + 1)))
               ("Player " +:+ pretty (first + 1))
               (default "" (PLAYER_COLORS !! (first mod length PLAYER_COLORS)))
      :: makePlayers uuid (S first) n'
  end.

(** [createGameRoom(numPlayers)]; [now1] and [now2] are its two readings
    of [Date.now()].  With no player, [players[0].id] throws.  (The
    registration of the room in [activeGames] is not part of the game
    value.) *)
Definition createGameRoom (uuid : nat -> string) (numPlayers : nat) (now1 now2 : Z)
  : result Game :=
  let roomId := "room_" +:+ String.substring 0 8 (uuid 0) in
  let players := makePlayers uuid 0 numPlayers in
  match players with
  | [] => Throw "TypeError"
  | p0 :: _ =>
      Ok (mkGame roomId players (id p0) 30 true (replicate 7 (Some []))
                 now1 now2 0 false)
  end.

(** The result object of [checkGameOver]. *)
Record GameOver := mkGameOver {
  winner : string;
  winType : string;
  positions : list (nat * nat)
}.

Record GameOverDraws := mkOverDraws {
  d_winner : nat;
  d_winType : nat;
  d_startCol : nat;
  d_startRow : nat
}.

Definition winTypes : list string :=
  ["horizontal"; "vertical"; "diagonal_rising"; "diagonal_falling"].

(** The coordinate pushed at step [i] of the loop of [checkGameOver]. *)
Definition winPosition (winType : string) (startCol startRow i : nat) : nat * nat :=
  if String.eqb winType "horizontal" then (startCol + i, startRow)
  else if String.eqb winType "vertical" then (startCol, startRow + i)
  else if String.eqb winType "diagonal_rising" then (startCol + i, startRow + 3 - i)
  else (startCol + i, startRow + i).

(** [checkGameOver(game)] of the continuous simulation; [now] is the
    reading of [Date.now()].  [game.gameOver] is set before [winner.id] is
    read, so a room without players is marked over and the call throws. *)
Definition checkGameOver (g : Game) (d : GameOverDraws) (now : Z)
  : Game * result (option GameOver) :=
  if (30 <? eventCount g) || (5 * 60 * 1000 <? now - startTime g)%Z then
    let winner := players g !! rand_below (length (players g)) (d_winner d) in
    let winType := default "" (winTypes !! rand_below (length winTypes) (d_winType d)) in
    let startCol := rand_below 4 (d_startCol d) in
    let startRow := rand_below 3 (d_startRow d) in
    let positions := map (winPosition winType startCol startRow) (seq 0 4) in
    let g1 := set_gameOver true g in
    match winner with
    | None => (g1, Throw "TypeError")
    | Some w => (g1, Ok (Some (mkGameOver (id w) winType positions)))
    end
  else (g, Ok None).

(** One event of the simulation loop, with everything it reads from its
    environment. *)
Inductive Op : Type :=
| OpMove (playerId : string) (column : nat) (now : Z)
| OpPowerUp (playerId : string) (d : PowerUpDraws)
| OpCheckGameOver (d : GameOverDraws) (now : Z).

(** The game after one event.  The loop catches what an event throws and
    goes on with the game as the event left it. *)
Definition step (g : Game) (o : Op) : Game :=
  match o with
  | OpMove p c now => fst (makeMove g p c now)
  | OpPowerUp p d => fst (usePowerUp g p d)
  | OpCheckGameOver d now => fst (checkGameOver g d now)
  end.

Definition run (ops : list Op) (g : Game) : Game := fold_left step ops g.

(** *** Notions used to state the properties of the simulation *)

(** The discs of column [c], bottom first; a missing column holds none. *)
Definition column_stack (g : Game) (c : nat) : list string :=
  default [] (js_get (board g) c).

(** No column of the board holds more than six discs. *)
Definition capacity_ok (b : Board) : bool :=
  forallb (fun o => match o with
                    | Some stack => length stack <=? 6
                    | None => true
                    end) b.

(** The game on which [makeMove] works once it has made sure that the
    column exists. *)
Definition ensured (g : Game) (c : nat) : Game :=
  match js_get (board g) c with
  | None => set_board (js_set (board g) c []) g
  | Some _ => g
  end.

(** The game [makeMove] leaves when the disc lands and the next player
    can be read. *)
Definition landed (g : Game) (p : string) (c : nat) (now : Z) (next : string) : Game :=
  let g1 := set_board (js_set (board (ensured g c)) c (column_stack g c ++ [p]))
                      (ensured g c) in
  set_eventCount (S (eventCount g1)) (set_lastEventTime now (set_currentTurn next g1)).

(** [k] times [game.currentTurn = getNextPlayer(game)]. *)
Fixpoint rotate (k : nat) (g : Game) : result Game :=
  match k with
  | O => Ok g
  | S k' =>
      match getNextPlayer g with
      | Ok next => rotate k' (set_currentTurn next g)
      | Throw e => Throw e
      end
  end.

(** The id of the player in seat [i]. *)
Definition seat (g : Game) (i : nat) : option string := id <$> players g !! i.

(** Cell [(c, r)] of the board holds a disc of player [p]. *)
Definition owned (b : Board) (p : string) (cell : nat * nat) : bool :=
  match js_get b (fst cell) with
  | Some stack => bool_decide (stack !! snd cell = Some p)
  | None => false
  end.

(** The four cells of a line that starts at [(c, r)] and moves by one
    column and/or one row per step, as [checkGameOver] builds them for
    each win type. *)
Definition lineCells (winType : string) (c r : nat) : list (nat * nat) :=
  if String.eqb winType "horizontal" then [(c, r); (c + 1, r); (c + 2, r); (c + 3, r)]
  else if String.eqb winType "vertical" then [(c, r); (c, r + 1); (c, r + 2); (c, r + 3)]
  else if String.eqb winType "diagonal_rising" then
    [(c, r + 3); (c + 1, r + 2); (c + 2, r + 1); (c + 3, r)]
  else [(c, r); (c + 1, r + 1); (c + 2, r + 2); (c + 3, r + 3)].

(** The turn is with a seated player and no two players share an id. *)
Definition well_seated (g : Game) : Prop :=
  NoDup (id <$> players g) ∧ ∃ i, seat g i = Some (currentTurn g).

(** No character of [s] is an underscore. *)
Fixpoint no_underscore (s : string) : bool :=
  match s with
  | EmptyString => true
  | String c s' => negb (Ascii.eqb c "_"%char) && no_underscore s'
  end.

(** *** Concrete rooms used as examples *)

Definition demo_uuid (k : nat) : string := "9f1c2ab4-77de-4c0a-b1c3-5d6e7f809a1b".

(** The room [createGameRoom(2)] builds from these ids at time 0. *)
Definition demo_room : Game :=
  mkGame "room_9f1c2ab4"
         [mkPlayer "player1_9f1c" "Player 1" "red";
          mkPlayer "player2_9f1c" "Player 2" "yellow"]
         "player1_9f1c" 30 true (replicate 7 (Some [])) 0 0 0 false.

(** Six drops on column 0, by the two players in turn. *)
Definition fill_column_0 : list Op :=
  [OpMove "player1_9f1c" 0 1; OpMove "player2_9f1c" 0 2; OpMove "player1_9f1c" 0 3;
   OpMove "player2_9f1c" 0 4; OpMove "player1_9f1c" 0 5; OpMove "player2_9f1c" 0 6]%Z.

(** Draws that make [usePowerUp] a double drop on columns 1 and 0. *)
Definition double_drop_1_0 : PowerUpDraws := mkDraws 0 0 1 0 0 7 8 9.

(** Draws that make [usePowerUp] bomb column 3. *)
Definition bomb_3 : PowerUpDraws := mkDraws 1 3 0 0 0 7 8 9.

(** Draws that make [usePowerUp] undo on column 0. *)
Definition undo_0 : PowerUpDraws := mkDraws 3 0 0 0 0 7 8 9.

(** Draws that make [usePowerUp] a double drop on columns 1 and 2. *)
Definition double_drop_1_2 : PowerUpDraws := mkDraws 0 0 1 2 0 7 8 9.

(** Draws that make [usePowerUp] a gravity flip. *)
Definition gravity_flip_draws : PowerUpDraws := mkDraws 2 0 0 0 0 7 8 9.

(** Draws of [checkGameOver]: the second player wins a horizontal line
    that starts at column 1 of row 0. *)
Definition second_wins_row_0 : GameOverDraws := mkOverDraws 1 0 1 0.

(** *** The continuous simulation: random events and the room registry *)

(** An entry of [RANDOM_EVENTS]. *)
Record RandomEventDef := mkEventDef {
  re_id : string;
  re_name : string;
  re_description : string;
  re_effect : string;
  re_duration : nat
}.

Definition RANDOM_EVENTS : list RandomEventDef :=
  [mkEventDef "gravity_reversal" "Gravity Reversal"
              "Gravity has been reversed for all columns!"
              "All columns now have upward gravity" 3;
   mkEventDef "column_shuffle" "Column Shuffle"
              "All columns have been shuffled!"
              "Columns are now in random order" 2;
   mkEventDef "power_surge" "Power Surge"
              "Everyone gets an extra power-up!"
              "All players receive a random power-up" 1;
   mkEventDef "time_warp" "Time Warp"
              "Turn time has been reduced!"
              "Players have less time to make moves" 4].

(** What [triggerRandomEvent] reads from its environment: the entropy of
    the event draw, the value of [Math.random()] drawn for each column, and
    the reading of [Date.now()]. *)
Record EventDraws := mkEventDraws {
  d_event : nat;
  d_column : nat -> Q;
  t_event : Z
}.

(** [triggerRandomEvent(game)]: the game after the call, the event (or
    [None] for [undefined]) and the affected columns. *)
Definition triggerRandomEvent (g : Game) (d : EventDraws)
  : Game * (option RandomEventDef * list nat) :=
  let event := RANDOM_EVENTS !! rand_below (length RANDOM_EVENTS) (d_event d) in
  let affectedColumns :=
    List.filter (fun i => negb (Qle_bool (d_column d i) (3 # 10))) (seq 0 7) in
  let g1 := set_lastEventTime (t_event d) g in
  let g2 := set_eventCount (S (eventCount g1)) g1 in
  (g2, (event, affectedColumns)).

(** [activeGames]: an object used as a map from room id to game, with its
    keys in insertion order.  Writing an existing key keeps its place. *)
Abbreviation Registry := (list (string * Game)).

Fixpoint registry_set (reg : Registry) (key : string) (g : Game) : Registry :=
  match reg with
  | [] => [(key, g)]
  | (k, g') :: reg' =>
      if String.eqb k key then (k, g) :: reg'
      else (k, g') :: registry_set reg' key g
  end.

Fixpoint registry_get (reg : Registry) (key : string) : option Game :=
  match reg with
  | [] => None
  | (k, g) :: reg' => if String.eqb k key then Some g else registry_get reg' key
  end.

(** [createGameRoom(numPlayers)] with its last step,
    [activeGames[roomId] = gameRoom]. *)
Definition registerGameRoom (reg : Registry) (uuid : nat -> string)
    (numPlayers : nat) (now1 now2 : Z) : Registry * result Game :=
  match createGameRoom uuid numPlayers now1 now2 with
  | Ok g => (registry_set reg (roomId g) g, Ok g)
  | Throw e => (reg, Throw e)
  end.

(** What [getRandomActiveGame] reads from its environment. *)
Record PickDraws := mkPickDraws {
  d_numPlayers : nat;
  d_pick : nat;
  pick_uuid : nat -> string;
  t_create1 : Z;
  t_create2 : Z
}.

(** [getRandomActiveGame()] *)
Definition getRandomActiveGame (reg : Registry) (d : PickDraws)
  : Registry * result Game :=
  let roomIds :=
    List.filter (fun key => match registry_get reg key with
                            | Some g => negb (gameOver g)
                            | None => false
                            end) (reg.*1) in
  match roomIds with
  | [] => registerGameRoom reg (pick_uuid d) (rand_below 3 (d_numPlayers d) + 2)
                           (t_create1 d) (t_create2 d)
  | _ :: _ =>
      match roomIds !! rand_below (length roomIds) (d_pick d) with
      | Some key =>
          match registry_get reg key with
          | Some g => (reg, Ok g)
          | None => (reg, Throw "TypeError")
          end
      | None => (reg, Throw "TypeError")
      end
  end.

(** The number of discs a double drop lands: one for each of its two
    drops whose column is not full at its moment. *)
Definition landedDrops (g : Game) (p : string) (d : PowerUpDraws) : nat :=
  let c1 := rand_below 7 (d_col1 d) in
  let c2 := rand_below 7 (d_col2 d) in
  let g1 := fst (makeMove g p c1 (t_drop1 d)) in
  (if 6 <=? length (column_stack g c1) then 0 else 1) +
  (if 6 <=? length (column_stack g1 c2) then 0 else 1).

(** All the events of [ops] are moves. *)
Definition only_moves (ops : list Op) : bool :=
  forallb (fun o => match o with OpMove _ _ _ => true | _ => false end) ops.

End Simulation.


(** ** The client's WebSocket service *)
Module WebSocketService.

Inductive Error : Type :=
| WebSocketConnectionError (message : string)
| WebSocketMessageError (message : string).

(** The object handed to message handlers by [notifyHandlers]:
    [{ type: messageType, ...data }]. *)
Record Notice := mkNotice {
  n_type : string;
  n_data : list (string * nat)
}.

(** A registered callback: it is identified by [h_key] and, called with
    [a], returns or throws.  Callbacks of this program do not call back
    into the service. *)
Record Handler (A : Type) := mkHandler {
  h_key : nat;
  h_call : A -> result unit
}.
Arguments mkHandler {A} h_key h_call.
Arguments h_key {A} _.
Arguments h_call {A} _ _.

(** The browser's socket object: its [readyState] and what its [send]
    does with a text. *)
Record WebSocket := mkWebSocket {
  readyState : nat;
  ws_send : string -> result unit
}.

Definition OPEN : nat := 1.

Record Service := mkService {
  socket : option WebSocket;
  messageHandlers : gmap string (list (Handler Notice));
  errorHandlers : list (Handler Error);
  reconnectInterval : nat;
  reconnectAttempts : nat;
  maxReconnectAttempts : nat;
  playerId : option string;
  autoReconnect : bool;
  isReconnecting : bool;
  connectionUrl : string
}.

(** What the service does to its environment, in order. *)
Inductive Event : Type :=
| Sent (data : string)
| ErrorNotified (handler : nat) (e : Error)
| MessageNotified (handler : nat) (m : Notice)
| ConsoleError (e : Error)
| ConsoleLog (text : string)
| TimerSet (ms : nat).

Record World := mkWorld {
  service : Service;
  trace : list Event
}.

Definition emit (ev : Event) : M World unit :=
  modify (fun w => mkWorld (service w) (trace w ++ [ev])).

Definition set_isReconnecting (b : bool) : M World unit :=
  modify (fun w =>
    let s := service w in
    mkWorld (mkService (socket s) (messageHandlers s) (errorHandlers s)
                       (reconnectInterval s) (reconnectAttempts s)
                       (maxReconnectAttempts s) (playerId s) (autoReconnect s)
                       b (connectionUrl s))
            (trace w)).

(** Calling one callback: the call is observed, then it returns or
    throws. *)
Definition callHandler {A} (observe : nat -> A -> Event) (a : A) (h : Handler A)
  : M World unit :=
  emit (observe (h_key h) a) ;;
  match h_call h a with
  | Ok _ => ret tt
  | Throw e => throw e
  end.

(** [notifyHandlers(messageType, data)] *)
Definition notifyHandlers (messageType : string) (data : list (string * nat))
  : M World unit :=
  let message := mkNotice messageType data in
  do handlers <- gets (fun w => messageHandlers (service w) !! messageType) ;
  match handlers with
  | Some hs => forEach (callHandler MessageNotified message) hs
  | None => ret tt
  end ;;
  do star <- gets (fun w => messageHandlers (service w) !! "*") ;
  match star with
  | Some hs => forEach (callHandler MessageNotified message) hs
  | None => ret tt
  end.

(** [notifyErrorHandlers(error)] *)
Definition notifyErrorHandlers (error : Error) : M World unit :=
  do hs <- gets (fun w => errorHandlers (service w)) ;
  forEach (callHandler ErrorNotified error) hs.

(** [attemptReconnect()]; the body of the timer it sets runs later and is
    not part of the call. *)
Definition attemptReconnect : M World unit :=
  do s <- gets service ;
  if isReconnecting s then ret tt
  else if autoReconnect s && (reconnectAttempts s <? maxReconnectAttempts s) then
    set_isReconnecting true ;;
    emit (ConsoleLog "Attempting to reconnect") ;;
    notifyHandlers "reconnecting"
      [("attempt", reconnectAttempts s + 1);
       ("maxAttempts", maxReconnectAttempts s);
       ("timeout", reconnectInterval s)] ;;
    emit (TimerSet (reconnectInterval s))
  else if maxReconnectAttempts s <=? reconnectAttempts s then
    notifyErrorHandlers (WebSocketConnectionError "Maximum reconnection attempts reached") ;;
    notifyHandlers "reconnect_failed"
      [("attempts", reconnectAttempts s); ("maxAttempts", maxReconnectAttempts s)]
  else ret tt.

Section Send.

(** [send(message: any)]: the message is any value; [JSON_stringify] is
    what [JSON.stringify] does with it (a text, or a throw). *)
Context {Message : Type}.
Variable JSON_stringify : Message -> result string.

(** [this.socket.send(JSON.stringify(message))] *)
Definition transmit (sock : WebSocket) (message : Message) : M World unit :=
  match JSON_stringify message with
  | Throw e => throw e
  | Ok data =>
      match ws_send sock data with
      | Throw e => throw e
      | Ok _ => emit (Sent data)
      end
  end.

Definition notConnected : M World bool :=
  let notConnectedError :=
    WebSocketConnectionError "Cannot send message - WebSocket is not connected" in
  emit (ConsoleError notConnectedError) ;;
  notifyErrorHandlers notConnectedError ;;
  do s <- gets service ;
  (if negb (isReconnecting s) && autoReconnect s then attemptReconnect else ret tt) ;;
  ret false.

Definition send (message : Message) : M World bool :=
  do s <- gets service ;
  match socket s with
  | Some sock =>
      if readyState sock =? OPEN then
        try_catch
          (transmit sock message ;; ret true)
          (fun error =>
             let sendError := WebSocketMessageError ("Failed to send message: " +:+ error) in
             emit (ConsoleError sendError) ;;
             notifyErrorHandlers sendError ;;
             ret false)
      else notConnected
  | None => notConnected
  end.

End Send.

(** [isConnected()] *)
Definition isConnected (s : Service) : bool :=
  match socket s with
  | Some sock => readyState sock =? OPEN
  | None => false
  end.

(** *** Notions used to state the properties of the service *)







(** A service with an open socket that takes every text, and one error
    handler that returns. *)
Definition open_service : World :=
  mkWorld (mkService (Some (mkWebSocket OPEN (fun _ => Ok tt))) ∅
                     [mkHandler 0 (fun _ => Ok tt)]
                     5000 0 5 (Some "player1") true false "")
          [].

(** *** The rest of the service: registration, socket events, lifecycle *)

Definition with_socket (x : option WebSocket) (s : Service) : Service :=
  mkService x (messageHandlers s) (errorHandlers s) (reconnectInterval s)
            (reconnectAttempts s) (maxReconnectAttempts s) (playerId s)
            (autoReconnect s) (isReconnecting s) (connectionUrl s).

Definition with_messageHandlers (x : gmap string (list (Handler Notice))) (s : Service)
  : Service :=
  mkService (socket s) x (errorHandlers s) (reconnectInterval s)
            (reconnectAttempts s) (maxReconnectAttempts s) (playerId s)
            (autoReconnect s) (isReconnecting s) (connectionUrl s).

Definition with_errorHandlers (x : list (Handler Error)) (s : Service) : Service :=
  mkService (socket s) (messageHandlers s) x (reconnectInterval s)
            (reconnectAttempts s) (maxReconnectAttempts s) (playerId s)
            (autoReconnect s) (isReconnecting s) (connectionUrl s).

Definition with_reconnectAttempts (x : nat) (s : Service) : Service :=
  mkService (socket s) (messageHandlers s) (errorHandlers s) (reconnectInterval s)
            x (maxReconnectAttempts s) (playerId s)
            (autoReconnect s) (isReconnecting s) (connectionUrl s).

Definition with_playerId (x : option string) (s : Service) : Service :=
  mkService (socket s) (messageHandlers s) (errorHandlers s) (reconnectInterval s)
            (reconnectAttempts s) (maxReconnectAttempts s) x
            (autoReconnect s) (isReconnecting s) (connectionUrl s).

Definition with_autoReconnect (x : bool) (s : Service) : Service :=
  mkService (socket s) (messageHandlers s) (errorHandlers s) (reconnectInterval s)
            (reconnectAttempts s) (maxReconnectAttempts s) (playerId s)
            x (isReconnecting s) (connectionUrl s).

Definition with_isReconnecting (x : bool) (s : Service) : Service :=
  mkService (socket s) (messageHandlers s) (errorHandlers s) (reconnectInterval s)
            (reconnectAttempts s) (maxReconnectAttempts s) (playerId s)
            (autoReconnect s) x (connectionUrl s).

Definition with_connectionUrl (x : string) (s : Service) : Service :=
  mkService (socket s) (messageHandlers s) (errorHandlers s) (reconnectInterval s)
            (reconnectAttempts s) (maxReconnectAttempts s) (playerId s)
            (autoReconnect s) (isReconnecting s) x.

Definition update (f : Service -> Service) : M World unit :=
  modify (fun w => mkWorld (f (service w)) (trace w)).

(** [set.add(handler)] and [set.delete(handler)] on a [Set] of callbacks;
    [h_key] is the identity of the function object. *)
Definition addHandler {A} (h : Handler A) (hs : list (Handler A)) : list (Handler A) :=
  if existsb (fun h' => h_key h' =? h_key h) hs then hs else hs ++ [h].

Definition deleteHandler {A} (h : Handler A) (hs : list (Handler A)) : list (Handler A) :=
  List.filter (fun h' => negb (h_key h' =? h_key h)) hs.

(** [on(messageType, handler)]; what it returns is [unsubscribe]. *)
Definition on (messageType : string) (handler : Handler Notice) : M World unit :=
  update (fun s =>
    with_messageHandlers
      (<[messageType := addHandler handler (default [] (messageHandlers s !! messageType))]>
         (messageHandlers s)) s).

Definition unsubscribe (messageType : string) (handler : Handler Notice) : M World unit :=
  update (fun s =>
    match messageHandlers s !! messageType with
    | Some hs =>
        with_messageHandlers (<[messageType := deleteHandler handler hs]> (messageHandlers s)) s
    | None => s
    end).

(** [onError(handler)]; what it returns is [unsubscribeError]. *)
Definition onError (handler : Handler Error) : M World unit :=
  update (fun s => with_errorHandlers (addHandler handler (errorHandlers s)) s).

Definition unsubscribeError (handler : Handler Error) : M World unit :=
  update (fun s => with_errorHandlers (deleteHandler handler (errorHandlers s)) s).

(** [off(messageType)] *)
Definition off (messageType : string) : M World unit :=
  update (fun s => with_messageHandlers (delete messageType (messageHandlers s)) s).

(** A text field of a notice: [Notice] carries numbers, so the text goes
    into the key. *)
Definition textField (field text : string) : string * nat :=
  (field +:+ ": " +:+ text, 0).

(** [handleOpen()] *)
Definition handleOpen : M World unit :=
  emit (ConsoleLog "WebSocket connected") ;;
  update (with_reconnectAttempts 0) ;;
  update (with_isReconnecting false) ;;
  notifyHandlers "connection_established" [("connected", 1)].

(** The [switch (event.code)] of [handleClose]. *)
Definition closeMessage (code : nat) : string :=
  match code with
  | 1000 => "Normal closure, connection ended normally"
  | 1001 => "Server going down or browser navigated away"
  | 1002 => "Protocol error"
  | 1003 => "Invalid data received"
  | 1006 => "Connection closed abnormally"
  | 1007 => "Invalid frame payload data"
  | 1008 => "Policy violation"
  | 1009 => "Message too big"
  | 1010 => "Missing extension"
  | 1011 => "Internal server error"
  | 1012 => "Service restart"
  | 1013 => "Try again later"
  | 1015 => "TLS handshake failure"
  | _ => "WebSocket connection closed"
  end.

(** [handleClose(event)] *)
Definition handleClose (code : nat) (reason : string) : M World unit :=
  let errorMessage := closeMessage code in
  let closeError :=
    WebSocketConnectionError
      (errorMessage +:+ " (code: " +:+ pretty code +:+ ", reason: "
       +:+ (if String.eqb reason "" then "none" else reason) +:+ ")") in
  emit (ConsoleLog "WebSocket connection closed") ;;
  (if code =? 1000 then ret tt else notifyErrorHandlers closeError) ;;
  notifyHandlers "connection_closed"
    [("code", code); textField "reason" reason; textField "message" errorMessage] ;;
  attemptReconnect.

(** [handleError(event)] *)
Definition handleError : M World unit :=
  let error := WebSocketConnectionError "WebSocket error occurred" in
  emit (ConsoleError error) ;;
  notifyErrorHandlers error.

(** [connect(playerId)]; [wsHost] is the configured host and [created]
    what [new WebSocket(url)] does, a socket or a throw. *)
Definition connect (wsHost : string) (created : result WebSocket) (playerId : string)
  : M World unit :=
  update (with_playerId (Some playerId)) ;;
  update (with_connectionUrl (wsHost +:+ "/ws/" +:+ playerId)) ;;
  match created with
  | Ok sock => update (with_socket (Some sock))
  | Throw error =>
      notifyErrorHandlers
        (WebSocketConnectionError ("Failed to create WebSocket connection: " +:+ error)) ;;
      attemptReconnect
  end.

(** The body of the timer that [attemptReconnect] sets. *)
Definition reconnectTimer (wsHost : string) (created : result WebSocket) : M World unit :=
  update (fun s => with_reconnectAttempts (reconnectAttempts s + 1) s) ;;
  do s <- gets service ;
  match playerId s with
  | Some pid => if String.eqb pid "" then ret tt else connect wsHost created pid
  | None => ret tt
  end.

(** [disconnect()]; [socket.close(1000, ...)] acts on the browser's socket
    only, the close event it causes arrives later through [handleClose]. *)
Definition disconnect : M World unit :=
  update (with_autoReconnect false) ;;
  update (with_isReconnecting false) ;;
  update (with_socket None).

(** [resetConnection()] *)
Definition resetConnection (wsHost : string) (created : result WebSocket) : M World unit :=
  update (with_socket None) ;;
  update (with_reconnectAttempts 0) ;;
  update (with_isReconnecting false) ;;
  do s <- gets service ;
  match playerId s with
  | Some pid => if String.eqb pid "" then ret tt else connect wsHost created pid
  | None => ret tt
  end.

(** A message that arrived, as [handleMessage] reads it: the value of its
    [type] when that is a string, and the object handed to the handlers. *)
Record Incoming := mkIncoming {
  in_type : option string;
  in_message : Notice
}.

Section Events.

Context {Message : Type}.
Variable JSON_stringify : Message -> result string.

(** [JSON.parse(event.data)] followed by the read of [message.type]: a
    throw stands for a text that does not parse and for a parsed value
    whose [type] cannot be read. *)
Variable JSON_parse : string -> result Incoming.
Variable wsHost : string.

Definition dispatchTo (key : string) (message : Notice) : M World unit :=
  do handlers <- gets (fun w => messageHandlers (service w) !! key) ;
  match handlers with
  | Some hs => forEach (callHandler MessageNotified message) hs
  | None => ret tt
  end.

(** [handleMessage(event)] *)
Definition handleMessage (data : string) : M World unit :=
  try_catch
    (match JSON_parse data with
     | Throw e => throw e
     | Ok incoming =>
         match in_type incoming with
         | Some messageType => dispatchTo messageType (in_message incoming)
         | None => ret tt
         end ;;
         dispatchTo "*" (in_message incoming)
     end)
    (fun error =>
       let messageError :=
         WebSocketMessageError ("Error parsing WebSocket message: " +:+ error) in
       emit (ConsoleError messageError) ;;
       notifyErrorHandlers messageError).

(** What can happen to the service: an event of its socket, its timer,
    or a call of one of its methods. *)
Inductive Input : Type :=
| SocketOpened
| SocketMessage (data : string)
| SocketClosed (code : nat) (reason : string)
| SocketFailed
| TimerFired (created : result WebSocket)
| Connect (playerId : string) (created : result WebSocket)
| Send (message : Message)
| Disconnect
| ResetConnection (created : result WebSocket)
| On (messageType : string) (handler : Handler Notice)
| Unsubscribe (messageType : string) (handler : Handler Notice)
| OnError (handler : Handler Error)
| UnsubscribeError (handler : Handler Error)
| Off (messageType : string).

(** The world after one input, whether the call returned or threw. *)
Definition react (w : World) (i : Input) : World :=
  match i with
  | SocketOpened => fst (handleOpen w)
  | SocketMessage data => fst (handleMessage data w)
  | SocketClosed code reason => fst (handleClose code reason w)
  | SocketFailed => fst (handleError w)
  | TimerFired created => fst (reconnectTimer wsHost created w)
  | Connect playerId created => fst (connect wsHost created playerId w)
  | Send message => fst (send JSON_stringify message w)
  | Disconnect => fst (disconnect w)
  | ResetConnection created => fst (resetConnection wsHost created w)
  | On messageType handler => fst (on messageType handler w)
  | Unsubscribe messageType handler => fst (unsubscribe messageType handler w)
  | OnError handler => fst (onError handler w)
  | UnsubscribeError handler => fst (unsubscribeError handler w)
  | Off messageType => fst (off messageType w)
  end.

Definition reactAll (inputs : list Input) (w : World) : World :=
  fold_left react inputs w.

(** Inputs other than a successful open, a disconnect and a reset. *)
Definition no_fresh_start (i : Input) : bool :=
  match i with
  | SocketOpened | Disconnect | ResetConnection _ => false
  | _ => true
  end.

End Events.

(** Every run of [c] takes a world to one that [R] relates to it, whether
    [c] returns or throws. *)
Definition keeps {A} (R : World -> World -> Prop) (c : M World A) : Prop :=
  forall w, R w (fst (c w)).

(** The number of reconnect timers set so far. *)
Definition timersSet (w : World) : nat :=
  length (List.filter (fun ev => match ev with TimerSet _ => true | _ => false end)
                      (trace w)).

(** Between [w] and [w'] no timer was set and the two reconnection flags
    were not touched. *)
Definition quiet (w w' : World) : Prop :=
  isReconnecting (service w') = isReconnecting (service w) ∧
  autoReconnect (service w') = autoReconnect (service w) ∧
  timersSet w' = timersSet w.

(** While the service is reconnecting it stays so and sets no timer; when
    it is not, it sets at most one timer and is reconnecting once it has
    set it. *)
Definition one_timer (w w' : World) : Prop :=
  (isReconnecting (service w) = true →
     isReconnecting (service w') = true ∧ timersSet w' = timersSet w) ∧
  (isReconnecting (service w) = false →
     timersSet w' = timersSet w ∨
     (timersSet w' = S (timersSet w) ∧ isReconnecting (service w') = true)).

(** Automatic reconnection, once switched off, stays off and sets no
    timer. *)
Definition stays_off (w w' : World) : Prop :=
  autoReconnect (service w) = false →
  autoReconnect (service w') = false ∧ timersSet w' = timersSet w.



(** The callbacks an incoming message is for, in the order of the calls:
    those registered for its type, then those registered for ["*"]. *)
Definition listeners (s : Service) (incoming : Incoming) : list (Handler Notice) :=
  match in_type incoming with
  | Some messageType => default [] (messageHandlers s !! messageType)
  | None => []
  end ++ default [] (messageHandlers s !! "*").


(** A service that has just lost its connection: no socket, two message
    handlers for [move_made] of which the first throws, one handler for
    every message, one error handler. *)
Definition dropped_service : World :=
  let moveHandlers :=
    [mkHandler 1 (fun _ : Notice => Throw "handler failed");
     mkHandler 2 (fun _ : Notice => Ok tt)] in
  let allHandlers := [mkHandler 3 (fun _ : Notice => Ok tt)] in
  mkWorld (mkService None
             (<["move_made" := moveHandlers]> (<["*" := allHandlers]> ∅))
             [mkHandler 0 (fun _ => Ok tt)]
             5000 0 5 (Some "player1") true false "")
          [].

(** A drop followed by a failed retry: the socket closes, the timer
    expires and a socket is created, which fails and closes; a message is
    sent and the socket closes once more. *)
Definition failed_retry : list (@Input unit) :=
  [SocketClosed 1006 ""; TimerFired (Ok (mkWebSocket 0 (fun _ => Ok tt)));
   SocketFailed; SocketClosed 1006 ""; Send tt; SocketClosed 1006 ""].

End WebSocketService.



(** ** The [useGame] hook of the client *)
Module UseGame.

Import WebSocketService.

(** [Player] and [Room] of the game API. *)
Record Player := mkPlayer {
  id : string;
  name : string;
  color : string
}.

Record Room := mkRoom {
  room_id : string;
  room_name : string;
  players : list Player;
  max_players : Z;
  is_active : bool;
  current_turn : option string;
  random_events_enabled : bool
}.

(** [BoardCell]; a [column] of [None] is [NaN]. *)
Record BoardCell := mkCell {
  playerId : option string;
  row : Z;
  column : option Z
}.

(** An entry of the inventory object.  [id], [name] and [description]
    are [None] in an entry that has no such field, as the one that
    [power_up_used] makes from a name that the object inherits. *)
Record PlayerPowerUp := mkPowerUp {
  pu_id : option string;
  pu_name : option string;
  pu_description : option string;
  remainingUses : Z
}.

(** An entry with all its fields. *)
Definition powerUp (id name description : string) (uses : Z) : PlayerPowerUp :=
  mkPowerUp (Some id) (Some name) (Some description) uses.

Record RandomEvent := mkEvent {
  ev_id : string;
  ev_name : string;
  ev_description : string;
  ev_effect : string;
  duration : Z;
  activeUntil : Z
}.

Record WinState := mkWinState {
  winner : option string;
  winType : option string;
  positions : option (list (Z * Z))
}.

Record ChatEntry := mkEntry {
  entry_id : string;
  entry_playerId : string;
  entry_message : string;
  entry_timestamp : Z
}.

Inductive ConnectionState : Type :=
| connected | disconnected | connecting | reconnecting | failed.

Record GameState := mkState {
  room : option Room;
  player : option Player;
  isConnected : bool;
  isMyTurn : bool;
  board : gmap string (list BoardCell);
  powerUps : gmap string PlayerPowerUp;
  activeEvents : list RandomEvent;
  isGravityFlipped : bool;
  winState : WinState;
  messages : list ChatEntry;
  error : option string;
  connectionState : ConnectionState;
  turnTimeLimit : Q;
  turnStartTime : Q;
  remainingTime : Q;
  powerUpsPrototype : option Z
}.

(** [{ ...state, error }] *)
Definition with_error (e : option string) (s : GameState) : GameState :=
  mkState (room s) (player s) (isConnected s) (isMyTurn s) (board s) (powerUps s)
          (activeEvents s) (isGravityFlipped s) (winState s) (messages s)
          e (connectionState s) (turnTimeLimit s) (turnStartTime s) (remainingTime s)
          (powerUpsPrototype s).

(** *** Reading a property of an object *)

(** The property names that every plain object inherits from
    [Object.prototype]: all are functions but [__proto__], which reads
    and sets the prototype of the object. *)
Definition objectPrototype : list string :=
  ["constructor"; "__defineGetter__"; "__defineSetter__"; "hasOwnProperty";
   "__lookupGetter__"; "__lookupSetter__"; "isPrototypeOf"; "propertyIsEnumerable";
   "toString"; "valueOf"; "__proto__"; "toLocaleString"].

Definition inherited (key : string) : bool :=
  existsb (String.eqb key) objectPrototype.

(** What [state.powerUps[key]] is.  [powerUps] holds the object's own
    properties.  Its prototype is [Object.prototype], unless
    [powerUpsPrototype] is [Some n]: then it is an object [{ remainingUses:
    n }] (whose prototype is [Object.prototype]), which [power_up_used]
    has put in its place by assigning to [__proto__]. *)
Inductive Slot : Type :=
| SlotOwn (entry : PlayerPowerUp)
| SlotNumber (n : Z)
| SlotPrototype (uses : option Z)
| SlotFunction
| SlotUndefined.

Definition readPowerUp (state : GameState) (key : string) : Slot :=
  match powerUps state !! key with
  | Some entry => SlotOwn entry
  | None =>
      if String.eqb key "__proto__" then SlotPrototype (powerUpsPrototype state)
      else if inherited key then SlotFunction
      else match powerUpsPrototype state with
           | Some n => if String.eqb key "remainingUses" then SlotNumber n else SlotUndefined
           | None => SlotUndefined
           end
  end.

(** [!powerUp || powerUp.remainingUses <= 0] for what was read: an entry
    is truthy and has its count; a number is falsy when it is 0 and has no
    [remainingUses]; a function and [Object.prototype] are truthy and
    have none, and [undefined <= 0] is false. *)
Definition noUsesLeft (slot : Slot) : bool :=
  match slot with
  | SlotOwn entry => (remainingUses entry <=? 0)%Z
  | SlotNumber n => (n =? 0)%Z
  | SlotPrototype (Some n) => (n <=? 0)%Z
  | SlotPrototype None => false
  | SlotFunction => false
  | SlotUndefined => true
  end.

(** [x || d] on an optional number: [undefined] and [0] are falsy. *)
Definition num_or (x : option Q) (d : Q) : Q :=
  match x with
  | Some q => if Qeq_bool q 0 then d else q
  | None => d
  end.

(** [Date.now() / 1000] for a reading in milliseconds. *)
Definition seconds (now : Z) : Q := Qmake now 1000.

(** *** Messages pushed by the server *)

(** A [column] that is a number or a string, and its [toString()]. *)
Inductive ColumnKey : Type :=
| ColumnNumber (n : Z)
| ColumnString (s : string).

Definition columnToString (c : ColumnKey) : string :=
  match c with
  | ColumnNumber n => pretty n
  | ColumnString s => s
  end.

Record MoveMadeMessage := mkMoveMade {
  mm_player_id : string;
  mm_column : ColumnKey;
  mm_row : Z;
  mm_next_turn : string;
  mm_turn_time_limit : option Q;
  mm_turn_start_time : option Q
}.

Record TurnTimeoutMessage := mkTurnTimeout {
  tt_player_id : string;
  tt_next_turn : string;
  tt_remaining_time : option Q
}.

Record Drop := mkDrop {
  drop_column : Z;
  drop_row : Z
}.

(** The [effect] of a [power_up_used] message, by the fields the handler
    reads ([bombed] and [flipped] by their truthiness). *)
Record Effect := mkEffect {
  drop1 : option Drop;
  drop2 : option Drop;
  bombed : bool;
  flipped : bool;
  effect_column : option Z
}.

Definition noEffect : Effect := mkEffect None None false false None.

Record PowerUpUsedMessage := mkPowerUpUsed {
  pm_player_id : string;
  pm_power_up_id : string;
  pm_remaining_uses : Z;
  pm_effect : option Effect
}.

Record GameOverMessage := mkGameOverMessage {
  go_winner : string;
  go_win_type : string;
  go_positions : option (list (Z * Z))
}.

(** [s.replace(/_/g, ' ')] *)
Fixpoint replace_underscores (s : string) : string :=
  match s with
  | EmptyString => EmptyString
  | String c s' =>
      String (if Ascii.eqb c "_"%char then " "%char else c) (replace_underscores s')
  end.

Section Handlers.

(** The id of the player the hook was mounted for, and [parseInt] on
    column keys. *)
Variable me : string.
Variable parseInt : string -> option Z.

(** [updatedBoard[column] = [...updatedBoard[column], cell]], after the
    missing column was set to [[]]. *)
Definition appendCell (b : gmap string (list BoardCell)) (col : string) (c : BoardCell)
  : gmap string (list BoardCell) :=
  <[col := default [] (b !! col) ++ [c]]> b.

(** The [move_made] handler; [now] is the reading of [Date.now()].  For
    a column that the board does not have but inherits (a name of
    [Object.prototype]), [!updatedBoard[column]] is false, the column is
    not set to [[]], and spreading what was read, which is no array,
    throws. *)
Definition move_made (message : MoveMadeMessage) (now : Z) (state : GameState)
  : result GameState :=
  let column := columnToString (mm_column message) in
  let own := match board state !! column with
             | Some _ => true
             | None => false
             end in
  if negb own && inherited column then Throw "TypeError"
  else
    Ok (mkState (room state) (player state) (isConnected state)
                (String.eqb (mm_next_turn message) me)
                (appendCell (board state) column
                   (mkCell (Some (mm_player_id message)) (mm_row message)
                           (parseInt column)))
                (powerUps state) (activeEvents state)
                (isGravityFlipped state) (winState state) (messages state)
                None
                (connectionState state)
                (num_or (mm_turn_time_limit message) (turnTimeLimit state))
                (num_or (mm_turn_start_time message) (seconds now))
                (num_or (mm_turn_time_limit message) (turnTimeLimit state))
                (powerUpsPrototype state)).

(** The [turn_timeout] handler; [now] is the reading of [Date.now()]. *)
Definition turn_timeout (message : TurnTimeoutMessage) (now : Z) (state : GameState)
  : GameState :=
  mkState (room state) (player state) (isConnected state)
          (String.eqb (tt_next_turn message) me)
          (board state) (powerUps state) (activeEvents state)
          (isGravityFlipped state) (winState state) (messages state)
          (Some ((if String.eqb (tt_player_id message) me then "Your" else "Opponent's")
                 +:+ " turn timed out!"))
          (connectionState state) (turnTimeLimit state)
          (seconds now)
          (num_or (tt_remaining_time message) (turnTimeLimit state))
          (powerUpsPrototype state).

(** The [power_up_used] handler; [now1] and [now2] are its two readings
    of [Date.now()].  [effect.column.toString()] throws when a bombed
    effect carries no column.

    [updatedPowerUps] is a fresh copy of the own entries, with
    [Object.prototype] as its prototype.  [power_up_id in updatedPowerUps]
    holds of an own entry and of every name of [Object.prototype]: for
    the latter, what is read is a function, whose spread is empty, and
    the assignment makes an own entry that has only [remainingUses]; but
    for [__proto__] what is read is [Object.prototype], whose spread is
    empty as well, and the assignment replaces the prototype of the copy
    by [{ remainingUses }]. *)
Definition power_up_used (message : PowerUpUsedMessage) (now1 now2 : Z)
    (state : GameState) : result GameState :=
  let updatedPowerUps :=
    if String.eqb (pm_player_id message) me then
      match powerUps state !! pm_power_up_id message with
      | Some pu =>
          <[pm_power_up_id message :=
              mkPowerUp (pu_id pu) (pu_name pu) (pu_description pu)
                        (pm_remaining_uses message)]> (powerUps state)
      | None =>
          if inherited (pm_power_up_id message)
             && negb (String.eqb (pm_power_up_id message) "__proto__")
          then <[pm_power_up_id message :=
                   mkPowerUp None None None (pm_remaining_uses message)]> (powerUps state)
          else powerUps state
      end
    else powerUps state in
  let updatedPrototype :=
    if String.eqb (pm_player_id message) me
       && String.eqb (pm_power_up_id message) "__proto__"
       && negb (bool_decide (is_Some (powerUps state !! pm_power_up_id message)))
    then Some (pm_remaining_uses message)
    else None in
  let powerUpName := replace_underscores (pm_power_up_id message) in
  let playerName :=
    match room state with
    | Some r =>
        match List.find (fun p => String.eqb (id p) (pm_player_id message)) (players r) with
        | Some p => if String.eqb (name p) "" then "A player" else name p
        | None => "A player"
        end
    | None => "A player"
    end in
  let messages' :=
    messages state ++
    [mkEntry ("system-" +:+ pretty now1) "system"
             (playerName +:+ " used " +:+ powerUpName +:+ "!") now2] in
  let effect := default noEffect (pm_effect message) in
  let finish (b : gmap string (list BoardCell)) (gravity : bool) : GameState :=
    mkState (room state) (player state) (isConnected state) (isMyTurn state)
            b updatedPowerUps (activeEvents state) gravity (winState state)
            messages' None (connectionState state) (turnTimeLimit state)
            (turnStartTime state) (remainingTime state) updatedPrototype in
  match drop1 effect, drop2 effect with
  | Some d1, Some d2 =>
      let column1 := pretty (drop_column d1) in
      let column2 := pretty (drop_column d2) in
      let b1 := appendCell (board state) column1
                  (mkCell (Some (pm_player_id message)) (drop_row d1) (parseInt column1)) in
      let b2 := appendCell b1 column2
                  (mkCell (Some (pm_player_id message)) (drop_row d2) (parseInt column2)) in
      Ok (finish b2 (isGravityFlipped state))
  | _, _ =>
      if bombed effect then
        match effect_column effect with
        | None => Throw "TypeError"
        | Some c =>
            let col := pretty c in
            let b := match board state !! col with
                     | Some _ => <[col := []]> (board state)
                     | None => board state
                     end in
            Ok (finish b (isGravityFlipped state))
        end
      else if flipped effect && String.eqb (pm_power_up_id message) "gravity_flip" then
        Ok (finish (board state) (negb (isGravityFlipped state)))
      else Ok (finish (board state) (isGravityFlipped state))
  end.

(** The [game_over] handler. *)
Definition game_over (message : GameOverMessage) (state : GameState) : GameState :=
  mkState (room state) (player state) (isConnected state) (isMyTurn state)
          (board state) (powerUps state) (activeEvents state)
          (isGravityFlipped state)
          (mkWinState (Some (go_winner message)) (Some (go_win_type message))
                      (go_positions message))
          (messages state) (error state) (connectionState state)
          (turnTimeLimit state) (turnStartTime state) (remainingTime state)
          (powerUpsPrototype state).

End Handlers.

(** *** Commands sent by the player *)

(** What the hook mutates: its React state and the socket service. *)
Record Client := mkClient {
  state : GameState;
  ws : World
}.

(** [updateGameState(updater)]: the update is applied to the state of the
    moment. *)
Definition updateGameState (f : GameState -> GameState) : M Client unit :=
  modify (fun c => mkClient (f (state c)) (ws c)).

(** The update of the error handler that the hook gives to [onError];
    [nowReconnecting] is its reading of [isAttemptingReconnection()]. *)
Definition socket_error (e : Error) (nowReconnecting : bool) (state : GameState)
  : GameState :=
  let errorMessage :=
    match e with
    | WebSocketConnectionError m => "Connection error: " +:+ m
    | WebSocketMessageError m => "Message error: " +:+ m
    end in
  mkState (room state) (player state) (isConnected state) (isMyTurn state)
          (board state) (powerUps state) (activeEvents state)
          (isGravityFlipped state) (winState state) (messages state)
          (Some errorMessage)
          (if nowReconnecting then reconnecting else disconnected)
          (turnTimeLimit state) (turnStartTime state) (remainingTime state)
          (powerUpsPrototype state).

Section Commands.

Context {TargetData : Type}.

(** The objects the hook passes to [send]. *)
Inductive ClientMessage : Type :=
| MsgMove (column : Z)
| MsgPowerUp (power_up_id : string) (target_data : TargetData)
| MsgChat (message : string)
| MsgRequestTimeUpdate.

Variable JSON_stringify : ClientMessage -> result string.

(** The identity of the callback that the hook gave to [onError] (a key
    that no registered error handler has, when the hook gave none), and
    the readings of [isAttemptingReconnection()] that the updates of this
    callback take, one for each time it is called. *)
Variable errorListener : nat.
Variable nowReconnecting : nat -> bool.

(** The updates that the hook's error handler makes of the state, for
    the calls it got among [evs]; [i] counts them.  (The handler also
    logs the error on the console, which is no part of the state.) *)
Fixpoint heard (i : nat) (evs : list Event) (state : GameState) : GameState :=
  match evs with
  | [] => state
  | ErrorNotified key e :: rest =>
      if key =? errorListener
      then heard (S i) rest (socket_error e (nowReconnecting i) state)
      else heard i rest state
  | _ :: rest => heard i rest state
  end.

(** A call into [webSocketService]: it changes the service, and where it
    notifies the hook's error handler, the state. *)
Definition onService {A} (call : M World A) : M Client A :=
  fun c =>
    match call (ws c) with
    | (w, r) =>
        (mkClient (heard 0 (drop (length (trace (ws c))) (trace w)) (state c)) w, r)
    end.

(** [makeMove(column)]; [gameState] is the state of the render in which
    the callback was built. *)
Definition makeMove (gameState : GameState) (column : Z) : M Client bool :=
  if negb (isMyTurn gameState) then
    updateGameState (with_error (Some "It's not your turn yet!")) ;;
    ret false
  else if negb (isConnected gameState) then
    updateGameState (with_error
      (Some "You are disconnected from the game server. Please wait for reconnection.")) ;;
    ret false
  else
    do success <- onService (send JSON_stringify (MsgMove column)) ;
    (if negb success
     then updateGameState (with_error (Some "Failed to send move. Please try again."))
     else ret tt) ;;
    ret success.

(** [usePowerUp(powerUpId, targetData)]; the first guard reads
    [gameState.powerUps[powerUpId]], own or inherited. *)
Definition usePowerUp (gameState : GameState) (powerUpId : string)
    (targetData : TargetData) : M Client bool :=
  if noUsesLeft (readPowerUp gameState powerUpId)
  then
    updateGameState (with_error (Some "You don't have any uses left for this power-up!")) ;;
    ret false
  else if negb (isMyTurn gameState) then
    updateGameState (with_error (Some "You can only use power-ups during your turn!")) ;;
    ret false
  else if negb (isConnected gameState) then
    updateGameState (with_error
      (Some "You are disconnected from the game server. Please wait for reconnection.")) ;;
    ret false
  else
    do success <- onService (send JSON_stringify (MsgPowerUp powerUpId targetData)) ;
    (if negb success
     then updateGameState (with_error (Some "Failed to use power-up. Please try again."))
     else ret tt) ;;
    ret success.

End Commands.

(** *** The state the hook starts from, and example inputs *)

Definition defaultPowerUps : gmap string PlayerPowerUp :=
  list_to_map
    [("double_drop", powerUp "double_drop" "Double Drop" "Drop two discs in a single turn" 1);
     ("undo_move", powerUp "undo_move" "Undo Move" "Remove the last disc placed" 1);
     ("column_bomb", powerUp "column_bomb" "Column Bomb" "Clear all discs from a column" 1);
     ("column_block", powerUp "column_block" "Column Block" "Block a column for 1 turn" 1);
     ("gravity_flip", powerUp "gravity_flip" "Gravity Flip"
                              "Flip gravity to normal (downward) for a column" 1)].

(** The argument of [useState]. *)
Definition initialState : GameState :=
  mkState None None false false ∅ defaultPowerUps [] true
          (mkWinState None None None) [] None disconnected 30 0 30 None.

(** The state of a connected player whose turn it is / is not. *)
Definition playing (myTurn : bool) : GameState :=
  mkState None None true myTurn ∅ defaultPowerUps [] true
          (mkWinState None None None) [] None connected 30 100 30 None.

(** The same player once the double drop is used up. *)
Definition spent : GameState :=
  mkState None None true true ∅
          (<["double_drop" :=
               powerUp "double_drop" "Double Drop" "Drop two discs in a single turn" 0]>
             defaultPowerUps)
          [] true (mkWinState None None None) [] None connected 30 100 30 None.

(** The notice that the second player dropped a disc on column 3 and
    that the first player is next. *)
Definition secondMoved : MoveMadeMessage :=
  mkMoveMade "player2" (ColumnNumber 3) 0 "player1" None None.

(** A timeout notice that names the second player as timed out and as
    next to move. *)
Definition staleTimeout : TurnTimeoutMessage :=
  mkTurnTimeout "player2" "player2" None.

(** The notice that the first player used the column bomb on column 3,
    with no use left. *)
Definition bombUsed : PowerUpUsedMessage :=
  mkPowerUpUsed "player1" "column_bomb" 0 (Some (mkEffect None None true false (Some 3%Z))).

(** Everything but the [error] notice is the same in both states. *)
Definition same_game (s s' : GameState) : Prop :=
  room s' = room s ∧ player s' = player s ∧ isConnected s' = isConnected s ∧
  isMyTurn s' = isMyTurn s ∧ board s' = board s ∧ powerUps s' = powerUps s ∧
  activeEvents s' = activeEvents s ∧ isGravityFlipped s' = isGravityFlipped s ∧
  winState s' = winState s ∧ messages s' = messages s ∧
  connectionState s' = connectionState s ∧ turnTimeLimit s' = turnTimeLimit s ∧
  turnStartTime s' = turnStartTime s ∧ remainingTime s' = remainingTime s ∧
  powerUpsPrototype s' = powerUpsPrototype s.

(** *** The other handlers of the hook *)

Record PlayerLeftMessage := mkPlayerLeft {
  pl_player_id : string;
  pl_current_turn : string;
  pl_turn_start_time : option Q
}.

Record GameStartedMessage := mkGameStarted {
  gs_room : Room;
  gs_current_turn : string;
  gs_turn_time_limit : option Q;
  gs_turn_start_time : option Q
}.

Record TimeUpdateMessage := mkTimeUpdate {
  tu_current_turn : string;
  tu_turn_time_limit : option Q;
  tu_turn_start_time : option Q;
  tu_remaining_time : option Q
}.

(** The [effect_result] of a [random_event] message, by the field the
    handler reads. *)
Record EffectResult := mkEffectResult {
  affected_columns : option (list Z)
}.

(** [re_effect_result] is [None] when the message carries [null] or no
    [effect_result]. *)
Record RandomEventMessage := mkRandomEventMessage {
  re_event : RandomEvent;
  re_effect_result : option EffectResult
}.

(** [Math.max(0, x)] *)
Definition max0 (x : Q) : Q := if Qle_bool 0 x then x else 0.

(** The board of [initializeBoard]: seven empty columns. *)
Definition blankBoard : gmap string (list BoardCell) :=
  list_to_map ((fun col : nat => (pretty col, [])) <$> seq 0 7).

Definition initializeBoard (state : GameState) : GameState :=
  mkState (room state) (player state) (isConnected state) (isMyTurn state)
          blankBoard (powerUps state) (activeEvents state)
          (isGravityFlipped state) (winState state) (messages state)
          (error state) (connectionState state)
          (turnTimeLimit state) (turnStartTime state) (remainingTime state)
          (powerUpsPrototype state).

Section MoreHandlers.

Variable me : string.

(** The [player_joined] handler. *)
Definition player_joined (joined : Player) (state : GameState) : GameState :=
  match room state with
  | None => state
  | Some r =>
      mkState (Some (mkRoom (room_id r) (room_name r) (players r ++ [joined])
                            (max_players r) (is_active r) (current_turn r)
                            (random_events_enabled r)))
              (player state) (isConnected state) (isMyTurn state)
              (board state) (powerUps state) (activeEvents state)
              (isGravityFlipped state) (winState state) (messages state)
              (error state) (connectionState state)
              (turnTimeLimit state) (turnStartTime state) (remainingTime state)
              (powerUpsPrototype state)
  end.

(** The [player_left] handler. *)
Definition player_left (message : PlayerLeftMessage) (state : GameState) : GameState :=
  match room state with
  | None => state
  | Some r =>
      mkState (Some (mkRoom (room_id r) (room_name r)
                            (List.filter
                               (fun p => negb (String.eqb (id p) (pl_player_id message)))
                               (players r))
                            (max_players r) (is_active r)
                            (Some (pl_current_turn message))
                            (random_events_enabled r)))
              (player state) (isConnected state)
              (String.eqb (pl_current_turn message) me)
              (board state) (powerUps state) (activeEvents state)
              (isGravityFlipped state) (winState state) (messages state)
              (error state) (connectionState state)
              (turnTimeLimit state)
              (num_or (pl_turn_start_time message) (turnStartTime state))
              (remainingTime state)
              (powerUpsPrototype state)
  end.

(** The [game_started] handler: its own update, then [initializeBoard];
    [now] is the reading of [Date.now()]. *)
Definition game_started (message : GameStartedMessage) (now : Z) (state : GameState)
  : GameState :=
  initializeBoard
    (mkState (Some (gs_room message)) (player state) (isConnected state)
             (String.eqb (gs_current_turn message) me)
             (board state) (powerUps state) (activeEvents state)
             (isGravityFlipped state) (winState state) (messages state)
             None (connectionState state)
             (num_or (gs_turn_time_limit message) 30)
             (num_or (gs_turn_start_time message) (seconds now))
             (num_or (gs_turn_time_limit message) 30)
             (powerUpsPrototype state)).

(** The [time_update] handler; [now] is the reading of [Date.now()]. *)
Definition time_update (message : TimeUpdateMessage) (now : Z) (state : GameState)
  : GameState :=
  let limit := num_or (tu_turn_time_limit message) (turnTimeLimit state) in
  let start := num_or (tu_turn_start_time message) (turnStartTime state) in
  mkState (room state) (player state) (isConnected state) (isMyTurn state)
          (board state) (powerUps state) (activeEvents state)
          (isGravityFlipped state) (winState state) (messages state)
          (error state) (connectionState state)
          limit start
          (num_or (tu_remaining_time message) (max0 (limit - (seconds now - start))))
          (powerUpsPrototype state).

(** The [random_event] handler; reading [effect.affected_columns] throws
    when the message has no [effect_result]. *)
Definition random_event (message : RandomEventMessage) (state : GameState)
  : result GameState :=
  let event := re_event message in
  match re_effect_result message with
  | None => Throw "TypeError"
  | Some _ =>
      Ok (mkState (room state) (player state) (isConnected state) (isMyTurn state)
                  (board state) (powerUps state)
                  (activeEvents state ++
                   [mkEvent (ev_id event) (ev_name event) (ev_description event)
                            (ev_effect event) (duration event)
                            (Z.of_nat (length (activeEvents state)) + duration event)%Z])
                  (isGravityFlipped state) (winState state) (messages state)
                  (error state) (connectionState state)
                  (turnTimeLimit state) (turnStartTime state) (remainingTime state)
                  (powerUpsPrototype state))
  end.

(** The [error] handler, and the body of the timer it sets. *)
Definition error_received (message : string) (state : GameState) : GameState :=
  with_error (Some message) state.

Definition error_expired (message : string) (state : GameState) : GameState :=
  match error state with
  | Some e => if String.eqb e message then with_error None state else state
  | None => state
  end.

End MoreHandlers.

(** What reaches the handlers that the hook registers for the game: a
    message of the server with the readings of the clock that its
    handler takes, or the expiry of the timer of an [error] message. *)
Inductive ServerMessage : Type :=
| PlayerJoined (joined : Player)
| PlayerLeft (message : PlayerLeftMessage)
| GameStarted (message : GameStartedMessage) (now : Z)
| MoveMade (message : MoveMadeMessage) (now : Z)
| TurnTimeout (message : TurnTimeoutMessage) (now : Z)
| TimeUpdate (message : TimeUpdateMessage) (now : Z)
| PowerUpUsed (message : PowerUpUsedMessage) (now1 now2 : Z)
| RandomEventTriggered (message : RandomEventMessage)
| GameOver (message : GameOverMessage)
| ErrorReceived (message : string)
| ErrorExpired (message : string).

Section Receiving.

Variable me : string.
Variable parseInt : string -> option Z.

(** The state update that a message causes; a throw is a throw of the
    updater. *)
Definition receive (msg : ServerMessage) (state : GameState) : result GameState :=
  match msg with
  | PlayerJoined joined => Ok (player_joined joined state)
  | PlayerLeft message => Ok (player_left me message state)
  | GameStarted message now => Ok (game_started me message now state)
  | MoveMade message now => move_made me parseInt message now state
  | TurnTimeout message now => Ok (turn_timeout me message now state)
  | TimeUpdate message now => Ok (time_update message now state)
  | PowerUpUsed message now1 now2 => power_up_used me parseInt message now1 now2 state
  | RandomEventTriggered message => random_event message state
  | GameOver message => Ok (game_over message state)
  | ErrorReceived message => Ok (error_received message state)
  | ErrorExpired message => Ok (error_expired message state)
  end.

(** The state after the messages, one update after the other; an update
    that throws ends the run with the state it was given. *)
Fixpoint receiveAll (msgs : list ServerMessage) (state : GameState) : GameState :=
  match msgs with
  | [] => state
  | msg :: rest =>
      match receive msg state with
      | Ok state' => receiveAll rest state'
      | Throw _ => state
      end
  end.

End Receiving.








(** From one inventory to a later one no entry is lost and only the
    count of an entry changes; an entry that is new has a name that
    every object inherits, other than [__proto__]. *)
Definition kept (before after : gmap string PlayerPowerUp) : Prop :=
  (∀ key entry, before !! key = Some entry →
     ∃ n, after !! key
          = Some (mkPowerUp (pu_id entry) (pu_name entry) (pu_description entry) n)) ∧
  (∀ key, is_Some (after !! key) →
     is_Some (before !! key) ∨ (inherited key = true ∧ key ≠ "__proto__")).

Definition is_game_over (msg : ServerMessage) : bool :=
  match msg with
  | GameOver _ => true
  | _ => false
  end.

(** The update of the connection check that runs every second, with its
    readings of [isConnected()] and [isAttemptingReconnection()]. *)
Definition connectionState_eqb (a b : ConnectionState) : bool :=
  match a, b with
  | connected, connected | disconnected, disconnected | connecting, connecting
  | reconnecting, reconnecting | failed, failed => true
  | _, _ => false
  end.

Definition checkConnection (nowConnected nowReconnecting : bool) (state : GameState)
  : GameState :=
  if negb (Bool.eqb (isConnected state) nowConnected)
     || negb (Bool.eqb (connectionState_eqb (connectionState state) reconnecting)
                       nowReconnecting)
  then
    mkState (room state) (player state) nowConnected (isMyTurn state)
            (board state) (powerUps state) (activeEvents state)
            (isGravityFlipped state) (winState state) (messages state)
            (error state)
            (if nowConnected then connected
             else if nowReconnecting then reconnecting
             else if negb (connectionState_eqb (connectionState state) failed)
                  then disconnected
                  else connectionState state)
            (turnTimeLimit state) (turnStartTime state) (remainingTime state)
            (powerUpsPrototype state)
  else state.

(** The update the hook makes when it is mounted, and the one of
    [reconnect()]. *)
Definition mounted (state : GameState) : GameState :=
  mkState (room state) (player state) (isConnected state) (isMyTurn state)
          (board state) (powerUps state) (activeEvents state)
          (isGravityFlipped state) (winState state) (messages state)
          (error state) connecting
          (turnTimeLimit state) (turnStartTime state) (remainingTime state)
          (powerUpsPrototype state).

Definition reconnect_asked (state : GameState) : GameState :=
  mkState (room state) (player state) (isConnected state) (isMyTurn state)
          (board state) (powerUps state) (activeEvents state)
          (isGravityFlipped state) (winState state) (messages state)
          (Some "Attempting to reconnect...") connecting
          (turnTimeLimit state) (turnStartTime state) (remainingTime state)
          (powerUpsPrototype state).

(** What changes the client's view of the connection, and the messages
    of the server in between. *)
Inductive HookEvent : Type :=
| FromServer (msg : ServerMessage)
| ConnectionChecked (nowConnected nowReconnecting : bool)
| SocketError (e : Error) (nowReconnecting : bool)
| Mounted
| ReconnectAsked.

Definition hookStep (me : string) (parseInt : string -> option Z)
    (ev : HookEvent) (state : GameState) : result GameState :=
  match ev with
  | FromServer msg => receive me parseInt msg state
  | ConnectionChecked nowConnected nowReconnecting =>
      Ok (checkConnection nowConnected nowReconnecting state)
  | SocketError e nowReconnecting => Ok (socket_error e nowReconnecting state)
  | Mounted => Ok (mounted state)
  | ReconnectAsked => Ok (reconnect_asked state)
  end.

(** The state after the events; an update that throws ends the run. *)
Fixpoint hookRun (me : string) (parseInt : string -> option Z)
    (evs : list HookEvent) (state : GameState) : GameState :=
  match evs with
  | [] => state
  | ev :: rest =>
      match hookStep me parseInt ev state with
      | Ok state' => hookRun me parseInt rest state'
      | Throw _ => state
      end
  end.

(** The status is not [failed], and it is [connected] only on a client
    that is marked connected. *)
Definition status_ok (state : GameState) : Prop :=
  connectionState state ≠ failed ∧
  (connectionState state = connected → isConnected state = true).

(** The socket opens, a move arrives, the socket fails and the service
    gives up, the player asks for a reconnection. *)
Definition lost_connection : list HookEvent :=
  [Mounted; ConnectionChecked true false;
   FromServer (MoveMade secondMoved 100000);
   SocketError (WebSocketConnectionError "Maximum reconnection attempts reached") false;
   ConnectionChecked false false; ReconnectAsked].

(** [isGameActive] as the page hands it to the board. *)
Definition isGameActive (state : GameState) : bool :=
  match room state with
  | Some r => is_active r
  | None => false
  end && negb (match winner (winState state) with
               | Some w => negb (String.eqb w "")
               | None => false
               end).

(** The notice that a game of two players starts, the first to move. *)
Definition firstStarts : GameStartedMessage :=
  mkGameStarted (mkRoom "room1" "Room" [mkPlayer "player1" "Ada" "red";
                                        mkPlayer "player2" "Bob" "blue"]
                        4 true (Some "player1") true)
                "player1" None None.

(** The notice that the first player has won a row. *)
Definition firstWon : GameOverMessage :=
  mkGameOverMessage "player1" "horizontal" (Some [(0, 0); (0, 1); (0, 2); (0, 3)]%Z).

End UseGame.


(** ** The game page: choosing the target of a power-up *)
Module GamePage.

Import UseGame.

(** The [targetData] objects the page builds, by their fields. *)
Record TargetData := mkTarget {
  column1 : option Z;
  column2 : option Z;
  target_column : option Z
}.

(** [{}] *)
Definition noTarget : TargetData := mkTarget None None None.

Record SelectionData := mkSelectionData {
  sd_id : string;
  requiresTarget : bool
}.

Record Selection := mkSelection {
  sel_powerUpId : string;
  sel_targetData : TargetData
}.

(** The two pieces of React state of the page that the selection uses. *)
Record Page := mkPage {
  powerUpSelectionData : option SelectionData;
  powerUpSelection : option Selection
}.

(** What a handler of the page does besides setting its state. *)
Inductive Call : Type :=
| MakeMove (column : Z)
| UsePowerUp (powerUpId : string) (targetData : TargetData)
| Toast (title : string)
| ConsoleWarn (text : string).

(** [handlePowerUpTarget(columnId)] *)
Definition handlePowerUpTarget (columnId : Z) (p : Page) : Page * list Call :=
  match powerUpSelectionData p with
  | None => (p, [])
  | Some data =>
      let powerUpId := sd_id data in
      if String.eqb powerUpId "double_drop" then
        match powerUpSelection p with
        | None =>
            (mkPage (powerUpSelectionData p)
                    (Some (mkSelection powerUpId (mkTarget (Some columnId) None None))),
             [Toast "Select second column"])
        | Some selection =>
            let targetData :=
              mkTarget (column1 (sel_targetData selection)) (Some columnId)
                       (target_column (sel_targetData selection)) in
            (mkPage None None, [UsePowerUp powerUpId targetData])
        end
      else
        (mkPage None (powerUpSelection p),
         [UsePowerUp powerUpId (mkTarget None None (Some columnId))])
  end.

(** [handleColumnClick(columnId)] *)
Definition handleColumnClick (columnId : Z) (p : Page) : Page * list Call :=
  match powerUpSelectionData p with
  | Some _ => handlePowerUpTarget columnId p
  | None => (p, [MakeMove columnId])
  end.

(** [handlePowerUpUse(powerUpId)]; [game] is what the hook returned to
    the render. *)
Definition handlePowerUpUse (game : GameState) (powerUpId : string) (p : Page)
  : Page * list Call :=
  let select (title : string) :=
    (mkPage (Some (mkSelectionData powerUpId true)) (powerUpSelection p), [Toast title]) in
  if noUsesLeft (readPowerUp game powerUpId) || negb (isMyTurn game) then (p, [])
  else if String.eqb powerUpId "double_drop" then select "Select first column"
  else if String.eqb powerUpId "column_bomb" || String.eqb powerUpId "column_block"
       then select "Select target column"
  else if String.eqb powerUpId "gravity_flip" then select "Flip Gravity Direction"
  else if String.eqb powerUpId "undo_move" then (p, [UsePowerUp powerUpId noTarget])
  else (p, [ConsoleWarn "Unknown power-up"]).

(** [cancelPowerUpSelection()] *)
Definition cancelPowerUpSelection (p : Page) : Page * list Call :=
  (mkPage None None, []).

(** What the player can do on the page: click one of the columns of the
    board, click the item of the inventory entry [key], click [Cancel]. *)
Inductive UiEvent : Type :=
| ColumnClicked (col : Z)
| PowerUpClicked (key : string)
| CancelClicked.

Definition roomActive (game : GameState) : bool :=
  match room game with
  | Some r => is_active r
  | None => false
  end.

(** The handler that a click reaches, under the conditions of the
    element that takes it: the board renders columns 0 to 6 and lets a
    click through on the player's turn in an active game; the inventory
    and the [Cancel] button are rendered in an active room, an item is
    disabled without uses, off turn and during a selection, and [Cancel]
    is there during a selection.  An item passes the [id] of its entry;
    for an entry without [id] this is [undefined], which reads the
    property ["undefined"]. *)
Definition click (game : GameState) (ev : UiEvent) (p : Page) : Page * list Call :=
  match ev with
  | ColumnClicked col =>
      if (0 <=? col)%Z && (col <? 7)%Z && isMyTurn game && isGameActive game
      then handleColumnClick col p
      else (p, [])
  | PowerUpClicked key =>
      match powerUps game !! key with
      | Some powerUp =>
          let isDisabled :=
            (remainingUses powerUp <=? 0)%Z
            || negb (isMyTurn game && negb (bool_decide (is_Some (powerUpSelectionData p)))) in
          if roomActive game && negb isDisabled
          then handlePowerUpUse game (default "undefined" (pu_id powerUp)) p
          else (p, [])
      | None => (p, [])
      end
  | CancelClicked =>
      if roomActive game && bool_decide (is_Some (powerUpSelectionData p))
      then cancelPowerUpSelection p
      else (p, [])
  end.

(** The page after a series of clicks, each with the state of the game at
    its time, and the calls made on the way. *)
Fixpoint clicks (evs : list (GameState * UiEvent)) (p : Page) : Page * list Call :=
  match evs with
  | [] => (p, [])
  | (game, ev) :: rest =>
      let '(p1, calls1) := click game ev p in
      let '(p', calls) := clicks rest p1 in
      (p', calls1 ++ calls)
  end.

(** The page as it is mounted. *)
Definition freshPage : Page := mkPage None None.

(** A target on the board: a column from 0 to 6. *)
Definition onBoard (c : option Z) : Prop :=
  ∃ col, c = Some col ∧ (0 ≤ col < 7)%Z.

(** A call that the hook and the server can make sense of: a move on a
    column of the board; a double drop with two columns of the board; a
    bomb, a block or a gravity flip with one; an undo with none. *)
Definition proper (call : Call) : Prop :=
  match call with
  | MakeMove col => (0 ≤ col < 7)%Z
  | UsePowerUp powerUpId targetData =>
      (powerUpId = "double_drop" ∧ onBoard (column1 targetData) ∧
       onBoard (column2 targetData) ∧ target_column targetData = None) ∨
      (powerUpId ∈ ["column_bomb"; "column_block"; "gravity_flip"] ∧
       targetData = mkTarget None None (target_column targetData) ∧
       onBoard (target_column targetData)) ∨
      (powerUpId = "undo_move" ∧ targetData = noTarget)
  | Toast _ | ConsoleWarn _ => True
  end.

(** What holds of the selection between two clicks: a chosen power-up
    is one of the four that take a target, and a stored first column is
    a column of the board that belongs to a chosen double drop. *)
Definition targeted : list string :=
  ["double_drop"; "column_bomb"; "column_block"; "gravity_flip"].

Definition selecting (p : Page) : Prop :=
  (∀ data, powerUpSelectionData p = Some data → sd_id data ∈ targeted) ∧
  (∀ selection, powerUpSelection p = Some selection →
     (∃ col, sel_targetData selection = mkTarget (Some col) None None ∧ (0 ≤ col < 7)%Z) ∧
     sd_id <$> powerUpSelectionData p = Some "double_drop").

(** The first player's turn in a running game. *)
Definition running : GameState :=
  game_started "player1" firstStarts 100000 initialState.

(** The double drop is chosen and columns 2 and 5 are clicked. *)
Definition double_drop_clicks : list (GameState * UiEvent) :=
  [(running, PowerUpClicked "double_drop");
   (running, ColumnClicked 2%Z); (running, ColumnClicked 5%Z)].

End GamePage.


(** * Properties *)

(** ** Arrays with holes *)
Section JsArray.

Context {A : Type}.
Implicit Types (a : list (option A)) (i j : nat) (v : A).

Lemma js_get_set_eq a i v : js_get (js_set a i v) i = Some v.
Proof.
  unfold js_get, js_set.
  destruct (i <? length a) eqn:Hlt.
  - apply Nat.ltb_lt in Hlt. by rewrite list_lookup_insert_eq.
  - apply Nat.ltb_ge in Hlt.
    rewrite lookup_app_r by done.
    rewrite lookup_app_r by (rewrite length_replicate; lia).
    rewrite length_replicate, Nat.sub_diag. done.
Qed.

Lemma js_get_set_ne a i j v : i ≠ j → js_get (js_set a i v) j = js_get a j.
Proof.
  intros Hne. unfold js_get, js_set.
  destruct (i <? length a) eqn:Hlt.
  - by rewrite list_lookup_insert_ne.
  - apply Nat.ltb_ge in Hlt.
    destruct (decide (j < length a)) as [Hj|Hj].
    + by rewrite lookup_app_l.
    + rewrite (lookup_ge_None_2 a j) by lia.
      rewrite lookup_app_r by lia.
      destruct (decide (j - length a < i - length a)) as [Hk|Hk].
      * rewrite lookup_app_l by (rewrite length_replicate; lia).
        rewrite lookup_replicate_2 by lia. done.
      * rewrite lookup_app_r by (rewrite length_replicate; lia).
        rewrite length_replicate.
        destruct (j - length a - (i - length a)) as [|k] eqn:Hk'; [lia|done].
Qed.

End JsArray.

Module SimulationFacts.

Import Simulation.

Lemma capacity_ok_spec (b : Board) :
  capacity_ok b = true ↔ ∀ c stack, js_get b c = Some stack → length stack ≤ 6.
Proof.
  unfold capacity_ok, js_get. rewrite forallb_forall. split.
  - intros H c stack Hc.
    destruct (b !! c) as [o|] eqn:Hb; simpl in Hc; [|done]. subst o.
    apply list_elem_of_lookup_2, list_elem_of_In, H in Hb.
    by apply Nat.leb_le.
  - intros H [stack|] Hin; [|done].
    apply list_elem_of_In, list_elem_of_lookup in Hin as [c Hc].
    apply Nat.leb_le, (H c). by rewrite Hc.
Qed.

Lemma capacity_ok_set (b : Board) (c : nat) (stack : list string) :
  capacity_ok b = true → length stack ≤ 6 → capacity_ok (js_set b c stack) = true.
Proof.
  rewrite !capacity_ok_spec. intros Hb Hs c' stack' Hget.
  destruct (decide (c = c')) as [->|Hne].
  - rewrite js_get_set_eq in Hget. by simplify_eq.
  - rewrite js_get_set_ne in Hget by done. eauto.
Qed.

(** *** [getNextPlayer] *)

Lemma findIndex_from_range {A} (f : A → bool) (l : list A) (i : Z) :
  findIndex_from f l i = (-1)%Z ∨
  (i ≤ findIndex_from f l i < i + Z.of_nat (length l))%Z.
Proof.
  revert i. induction l as [|x l IH]; intros i; simpl; [by left|].
  destruct (f x); [right; lia|].
  destruct (IH (i + 1)%Z) as [->|?]; [by left|right; lia].
Qed.

Lemma getNextPlayer_ok (g : Game) :
  players g ≠ [] → ∃ next, getNextPlayer g = Ok next.
Proof.
  intros Hne. unfold getNextPlayer.
  destruct (players g) as [|p ps] eqn:Hps; [done|].
  set (l := p :: ps). set (f := fun q => String.eqb (id q) (currentTurn g)).
  assert (0 < Z.of_nat (length l))%Z as Hlen by (simpl; lia).
  assert (0 ≤ findIndex f l + 1)%Z as Hidx.
  { unfold findIndex. destruct (findIndex_from_range f l 0) as [->|?]; lia. }
  pose proof (Z.rem_bound_pos _ _ Hidx Hlen) as Hrem.
  destruct (l !! Z.to_nat (Z.rem (findIndex f l + 1) (Z.of_nat (length l)))) as [q|] eqn:Hq.
  - eauto.
  - apply lookup_ge_None in Hq. lia.
Qed.

(** *** [makeMove] *)

Lemma ensured_get (g : Game) (c : nat) :
  js_get (board (ensured g c)) c = Some (column_stack g c).
Proof.
  unfold ensured, column_stack.
  destruct (js_get (board g) c) eqn:Hget; simpl; [done|apply js_get_set_eq].
Qed.

Lemma ensured_get_ne (g : Game) (c c' : nat) :
  c ≠ c' → js_get (board (ensured g c)) c' = js_get (board g) c'.
Proof.
  intros Hne. unfold ensured.
  destruct (js_get (board g) c); simpl; [done|by apply js_get_set_ne].
Qed.

Lemma ensured_full (g : Game) (c : nat) :
  0 < length (column_stack g c) → ensured g c = g.
Proof.
  unfold ensured, column_stack.
  destruct (js_get (board g) c); simpl; [done|lia].
Qed.

Lemma makeMove_eq (g : Game) (p : string) (c : nat) (now : Z) :
  makeMove g p c now =
  if 6 <=? length (column_stack g c) then (ensured g c, Ok None)
  else
    let g1 := set_board (js_set (board (ensured g c)) c (column_stack g c ++ [p]))
                        (ensured g c) in
    match getNextPlayer g1 with
    | Throw e => (g1, Throw e)
    | Ok next => (landed g p c now next, Ok (Some (c, length (column_stack g c))))
    end.
Proof.
  unfold makeMove, landed. fold (ensured g c). rewrite ensured_get. reflexivity.
Qed.

Lemma makeMove_full (g : Game) (p : string) (c : nat) (now : Z) :
  6 ≤ length (column_stack g c) → makeMove g p c now = (g, Ok None).
Proof.
  intros Hfull. rewrite makeMove_eq.
  destruct (Nat.leb_spec 6 (length (column_stack g c))); [|lia].
  rewrite ensured_full by lia. done.
Qed.

Lemma makeMove_board (g : Game) (p : string) (c : nat) (now : Z) :
  length (column_stack g c) < 6 →
  board (fst (makeMove g p c now))
  = js_set (board (ensured g c)) c (column_stack g c ++ [p]).
Proof.
  intros Hlt. rewrite makeMove_eq.
  destruct (Nat.leb_spec 6 (length (column_stack g c))); [lia|].
  cbv zeta. destruct (getNextPlayer _); done.
Qed.

Lemma makeMove_get (g : Game) (p : string) (c : nat) (now : Z) :
  length (column_stack g c) < 6 →
  js_get (board (fst (makeMove g p c now))) c = Some (column_stack g c ++ [p]).
Proof. intros Hlt. rewrite makeMove_board by done. apply js_get_set_eq. Qed.

Lemma makeMove_get_ne (g : Game) (p : string) (c c' : nat) (now : Z) :
  c ≠ c' → js_get (board (fst (makeMove g p c now))) c' = js_get (board g) c'.
Proof.
  intros Hne.
  destruct (decide (length (column_stack g c) < 6)) as [Hlt|Hge].
  - rewrite makeMove_board by done.
    rewrite js_get_set_ne by done. by apply ensured_get_ne.
  - rewrite makeMove_full by lia. done.
Qed.

Lemma ensured_players (g : Game) (c : nat) : players (ensured g c) = players g.
Proof. unfold ensured. by destruct (js_get (board g) c). Qed.

Lemma makeMove_players (g : Game) (p : string) (c : nat) (now : Z) :
  players (fst (makeMove g p c now)) = players g.
Proof.
  rewrite makeMove_eq.
  destruct (6 <=? _); [apply ensured_players|].
  cbv zeta. destruct (getNextPlayer _); simpl; apply ensured_players.
Qed.

Lemma makeMove_returns (g : Game) (p : string) (c : nat) (now : Z) :
  players g ≠ [] → length (column_stack g c) < 6 →
  ∃ next, makeMove g p c now
          = (landed g p c now next, Ok (Some (c, length (column_stack g c)))).
Proof.
  intros Hne Hlt. rewrite makeMove_eq.
  destruct (Nat.leb_spec 6 (length (column_stack g c))); [lia|].
  cbv zeta.
  match goal with |- context [getNextPlayer ?g1] =>
    destruct (getNextPlayer_ok g1) as [next ->] end; [|by eauto].
  simpl. by rewrite ensured_players.
Qed.

Lemma makeMove_capacity (g : Game) (p : string) (c : nat) (now : Z) :
  capacity_ok (board g) = true → capacity_ok (board (fst (makeMove g p c now))) = true.
Proof.
  intros Hok.
  destruct (decide (length (column_stack g c) < 6)) as [Hlt|Hge].
  - rewrite makeMove_board by done.
    apply capacity_ok_set; [|rewrite length_app; simpl; lia].
    unfold ensured. destruct (js_get (board g) c); simpl; [done|].
    apply capacity_ok_set; [done|simpl; lia].
  - rewrite makeMove_full by lia. done.
Qed.

(** *** [usePowerUp] *)

Lemma rand_below_lt (n r : nat) : 0 < n → rand_below n r < n.
Proof. destruct n as [|n']; [lia|]. intros _. apply Nat.mod_upper_bound. lia. Qed.

Lemma chosenPowerUp_cases (d : PowerUpDraws) :
  chosenPowerUp d ∈ POWER_UP_TYPES.
Proof.
  unfold chosenPowerUp.
  pose proof (rand_below_lt (length POWER_UP_TYPES) (d_kind d)) as Hlt.
  destruct (POWER_UP_TYPES !! rand_below (length POWER_UP_TYPES) (d_kind d)) as [k|] eqn:Hk.
  - simpl. by apply list_elem_of_lookup_2 in Hk.
  - apply lookup_ge_None in Hk. simpl in *. lia.
Qed.

Ltac power_up_cases d :=
  let H := fresh "Hkind" in
  pose proof (chosenPowerUp_cases d) as H;
  unfold POWER_UP_TYPES in H;
  repeat (apply elem_of_cons in H as [H|H]; [rewrite ?H|]);
  [..|by apply elem_of_nil in H].

Lemma usePowerUp_eq (g : Game) (p : string) (d : PowerUpDraws) :
  usePowerUp g p d =
  match powerUpSwitch g p (chosenPowerUp d) (rand_below 7 (d_target d)) d with
  | (g1, Throw e) => (g1, Throw e)
  | (g1, Ok effect) =>
      (set_eventCount (S (eventCount g1)) (set_lastEventTime (t_end d) g1),
       Ok (chosenPowerUp d, effect))
  end.
Proof. reflexivity. Qed.

Lemma usePowerUp_board (g : Game) (p : string) (d : PowerUpDraws) :
  board (fst (usePowerUp g p d))
  = board (fst (powerUpSwitch g p (chosenPowerUp d) (rand_below 7 (d_target d)) d)).
Proof.
  rewrite usePowerUp_eq.
  by destruct (powerUpSwitch _ _ _ _ _) as [g1 [eff|e]].
Qed.

Lemma doubleDrop_fst (g : Game) (p : string) (c : nat) (d : PowerUpDraws) :
  fst (powerUpSwitch g p "double_drop" c d)
  = fst (makeMove (fst (makeMove g p (rand_below 7 (d_col1 d)) (t_drop1 d)))
                  p (rand_below 7 (d_col2 d)) (t_drop2 d))
  ∨ (fst (powerUpSwitch g p "double_drop" c d)
     = fst (makeMove g p (rand_below 7 (d_col1 d)) (t_drop1 d))
     ∧ is_ok (snd (makeMove g p (rand_below 7 (d_col1 d)) (t_drop1 d))) = false).
Proof.
  unfold powerUpSwitch. simpl String.eqb. cbv iota zeta.
  destruct (makeMove g p _ (t_drop1 d)) as [g1 [drop1|e]]; simpl; [|by right].
  left. by destruct (makeMove g1 p _ (t_drop2 d)) as [g2 [drop2|e]].
Qed.

Lemma removelast_length_le {A} (l : list A) : length (removelast l) ≤ length l.
Proof.
  induction l as [|x [|y l] IH]; simpl in *; lia.
Qed.

Lemma powerUpSwitch_capacity (g : Game) (p : string) (c : nat) (d : PowerUpDraws) :
  capacity_ok (board g) = true →
  capacity_ok (board (fst (powerUpSwitch g p (chosenPowerUp d) c d))) = true.
Proof.
  intros Hok. power_up_cases d.
  - destruct (doubleDrop_fst g p c d) as [->|[-> _]];
      auto using makeMove_capacity.
  - simpl. apply capacity_ok_set; [done|simpl; lia].
  - done.
  - unfold powerUpSwitch. simpl String.eqb. cbv iota zeta.
    destruct (js_get (board g) _) as [stack|] eqn:Hget; [|done].
    destruct (0 <? length stack); [|done]. simpl.
    apply capacity_ok_set; [done|].
    pose proof (removelast_length_le stack).
    apply capacity_ok_spec with (c := rand_below 7 (d_undo d)) (stack := stack) in Hok;
      [lia|done].
  - done.
Qed.

Lemma checkGameOver_board (g : Game) (d : GameOverDraws) (now : Z) :
  board (fst (checkGameOver g d now)) = board g.
Proof.
  unfold checkGameOver.
  destruct (_ || _); [|done].
  by destruct (players g !! _).
Qed.

Lemma step_capacity (g : Game) (o : Op) :
  capacity_ok (board g) = true → capacity_ok (board (step g o)) = true.
Proof.
  intros Hok. destruct o as [p c now|p d|d now]; simpl.
  - by apply makeMove_capacity.
  - rewrite usePowerUp_board. by apply powerUpSwitch_capacity.
  - by rewrite checkGameOver_board.
Qed.

Lemma run_capacity (ops : list Op) (g : Game) :
  capacity_ok (board g) = true → capacity_ok (board (run ops g)) = true.
Proof.
  revert g. induction ops as [|o ops IH]; intros g Hok; [done|].
  simpl. apply IH. by apply step_capacity.
Qed.

Lemma column_stack_capacity (g : Game) (c : nat) :
  capacity_ok (board g) = true → length (column_stack g c) ≤ 6.
Proof.
  intros Hok. unfold column_stack.
  destruct (js_get (board g) c) as [stack|] eqn:Hget; simpl; [|lia].
  by eapply capacity_ok_spec.
Qed.

Lemma createGameRoom_capacity (uuid : nat → string) (n : nat) (now1 now2 : Z) (g : Game) :
  createGameRoom uuid n now1 now2 = Ok g → capacity_ok (board g) = true.
Proof.
  unfold createGameRoom. destruct (makePlayers uuid 0 n); [done|].
  intros [= <-]. reflexivity.
Qed.

(** C1. Whatever events the simulation runs on a board whose columns
    hold at most six discs, no column ever holds more than six; and a
    drop on a column that holds six discs returns [null] and leaves the
    whole game, that column included, as it was. *)
Theorem column_capacity (g : Game) (ops : list Op) :
  capacity_ok (board g) = true →
  (∀ c, length (column_stack (run ops g) c) ≤ 6) ∧
  (∀ p c now, length (column_stack (run ops g) c) = 6 →
     makeMove (run ops g) p c now = (run ops g, Ok None)).
Proof.
  intros Hok. split.
  - intros c. by apply column_stack_capacity, run_capacity.
  - intros p c now Hfull. apply makeMove_full. lia.
Qed.

Lemma created_demo_room : createGameRoom demo_uuid 2 0 0 = Ok demo_room.
Proof. reflexivity. Qed.

Lemma column_capacity_witness :
  capacity_ok (board demo_room) = true ∧
  (∀ c, length (column_stack (run fill_column_0 demo_room) c) ≤ 6) ∧
  (∀ p c now, length (column_stack (run fill_column_0 demo_room) c) = 6 →
     makeMove (run fill_column_0 demo_room) p c now
     = (run fill_column_0 demo_room, Ok None)).
Proof.
  split; [reflexivity|].
  apply (column_capacity demo_room fill_column_0). reflexivity.
Defined.


(** C8. A drop on a column that holds fewer than six discs puts one disc
    of the player on top of that column, leaves the other columns alone
    and, in a room with players, returns the row of the new disc, which is
    the number of discs the column held before. *)
Theorem drop_appends (g : Game) (p : string) (c : nat) (now : Z) :
  length (column_stack g c) < 6 →
  js_get (board (fst (makeMove g p c now))) c = Some (column_stack g c ++ [p]) ∧
  (∀ c', c ≠ c' → js_get (board (fst (makeMove g p c now))) c' = js_get (board g) c') ∧
  (players g ≠ [] →
     snd (makeMove g p c now) = Ok (Some (c, length (column_stack g c)))).
Proof.
  intros Hlt. split; [by apply makeMove_get|]. split.
  - intros c' Hne. by apply makeMove_get_ne.
  - intros Hne. destruct (makeMove_returns g p c now Hne Hlt) as [next ->]. done.
Qed.

Lemma drop_appends_witness :
  length (column_stack demo_room 3) < 6 ∧
  js_get (board (fst (makeMove demo_room "player1_9f1c" 3 5))) 3
  = Some (column_stack demo_room 3 ++ ["player1_9f1c"]) ∧
  (∀ c', 3 ≠ c' →
     js_get (board (fst (makeMove demo_room "player1_9f1c" 3 5))) c'
     = js_get (board demo_room) c') ∧
  (players demo_room ≠ [] →
     snd (makeMove demo_room "player1_9f1c" 3 5)
     = Ok (Some (3, length (column_stack demo_room 3)))).
Proof.
  split; [simpl; lia|].
  apply (drop_appends demo_room "player1_9f1c" 3 5). simpl. lia.
Defined.


(** C9. When [usePowerUp] draws [undo_move] for column [c]: if the
    column holds [rest ++ [top]] it holds [rest] afterwards and the effect
    reports [undone]; if the column is empty or missing the board is
    unchanged and the effect reports nothing undone; the other columns are
    unchanged in both cases. *)
Theorem undo_removes_top (g : Game) (p : string) (d : PowerUpDraws) :
  chosenPowerUp d = "undo_move" →
  let c := rand_below 7 (d_undo d) in
  ∃ g' effect,
    usePowerUp g p d = (g', Ok ("undo_move", effect)) ∧
    (∀ rest top, column_stack g c = rest ++ [top] →
       js_get (board g') c = Some rest ∧ effect = EffUndone c) ∧
    (column_stack g c = [] → board g' = board g ∧ effect_undone effect = false) ∧
    (∀ c', c ≠ c' → js_get (board g') c' = js_get (board g) c').
Proof.
  intros Hkind c. rewrite usePowerUp_eq, Hkind.
  unfold powerUpSwitch. simpl String.eqb. cbv iota zeta. fold c.
  unfold column_stack.
  destruct (js_get (board g) c) as [stack|] eqn:Hget; simpl.
  - clear Hget. destruct stack as [|x stack _] using rev_ind.
    + simpl. eexists _, _. split; [done|]. split; [|done].
      intros rest top Hnil. by destruct rest.
    + rewrite length_app. simpl.
      replace (0 <? length stack + 1) with true by (symmetry; apply Nat.ltb_lt; lia).
      eexists _, _. split; [done|]. simpl. rewrite removelast_last.
      split; [|split].
      * intros rest top Heq. apply app_inj_tail in Heq as [-> ->].
        by rewrite js_get_set_eq.
      * intros Heq. by destruct stack.
      * intros c' Hne. by apply js_get_set_ne.
  - eexists _, _. split; [done|]. split; [|done].
    intros rest top Hnil. by destruct rest.
Qed.

Lemma undo_removes_top_witness :
  chosenPowerUp undo_0 = "undo_move" ∧
  ∃ g' effect,
    usePowerUp (run fill_column_0 demo_room) "player1_9f1c" undo_0
    = (g', Ok ("undo_move", effect)) ∧
    (∀ rest top, column_stack (run fill_column_0 demo_room) 0 = rest ++ [top] →
       js_get (board g') 0 = Some rest ∧ effect = EffUndone 0) ∧
    (column_stack (run fill_column_0 demo_room) 0 = [] →
       board g' = board (run fill_column_0 demo_room) ∧ effect_undone effect = false) ∧
    (∀ c', 0 ≠ c' →
       js_get (board g') c' = js_get (board (run fill_column_0 demo_room)) c').
Proof.
  split; [reflexivity|].
  apply (undo_removes_top (run fill_column_0 demo_room) "player1_9f1c" undo_0).
  reflexivity.
Defined.


(** *** Turn rotation *)

Lemma findIndex_from_first {A} (f : A → bool) (l : list A) (k : Z) (i : nat) (x : A) :
  l !! i = Some x → f x = true →
  (∀ j y, j < i → l !! j = Some y → f y = false) →
  findIndex_from f l k = (k + Z.of_nat i)%Z.
Proof.
  revert k i. induction l as [|y l IH]; intros k i Hx Hfx Hbefore; [done|].
  destruct i as [|i]; simpl in *.
  - simplify_eq. rewrite Hfx. lia.
  - rewrite (Hbefore 0 y) by (done || lia).
    rewrite (IH (k + 1)%Z i); [lia|done..|].
    intros j z Hj Hz. apply (Hbefore (S j) z); [lia|done].
Qed.

Lemma findIndex_seat (g : Game) (i : nat) :
  NoDup (id <$> players g) → seat g i = Some (currentTurn g) →
  findIndex (fun p => String.eqb (id p) (currentTurn g)) (players g) = Z.of_nat i.
Proof.
  unfold seat. intros Hnd Hseat.
  destruct (players g !! i) as [pl|] eqn:Hpl; simplify_eq/=.
  unfold findIndex. rewrite (findIndex_from_first _ _ 0 i pl); [lia|done| |].
  - apply String.eqb_eq. congruence.
  - intros j y Hj Hy. apply String.eqb_neq. intros Heq.
    assert (j = i); [|lia].
    eapply NoDup_lookup; [exact Hnd| |].
    + rewrite list_lookup_fmap, Hy. done.
    + rewrite list_lookup_fmap, Hpl. simpl. congruence.
Qed.

Lemma getNextPlayer_seat (g : Game) (i : nat) :
  NoDup (id <$> players g) → seat g i = Some (currentTurn g) →
  ∃ next, getNextPlayer g = Ok next ∧
          seat g ((i + 1) mod length (players g)) = Some next.
Proof.
  intros Hnd Hseat. unfold getNextPlayer.
  rewrite (findIndex_seat g i) by done.
  assert (i < length (players g)) as Hi.
  { unfold seat in Hseat. destruct (players g !! i) eqn:E; [|done].
    by apply lookup_lt_Some in E. }
  destruct (players g) as [|p0 ps] eqn:Hps; [simpl in Hi; lia|].
  rewrite <- Hps in *.
  assert (length (players g) ≠ 0) as Hlen by lia.
  replace (Z.rem (Z.of_nat i + 1) (Z.of_nat (length (players g))))
    with (Z.of_nat ((i + 1) mod length (players g))).
  2: { rewrite Z.rem_mod_nonneg by lia. rewrite Nat2Z.inj_mod. f_equal. lia. }
  rewrite Nat2Z.id. unfold seat.
  pose proof (Nat.mod_upper_bound (i + 1) (length (players g)) Hlen) as Hlt.
  apply lookup_lt_is_Some_2 in Hlt as [q Hq]. rewrite Hq. simpl. eauto.
Qed.

Lemma rotate_seat (k : nat) (g : Game) (i : nat) :
  NoDup (id <$> players g) → seat g i = Some (currentTurn g) →
  ∃ g', rotate k g = Ok g' ∧ players g' = players g ∧
        seat g ((i + k) mod length (players g)) = Some (currentTurn g').
Proof.
  revert g i. induction k as [|k IH]; intros g i Hnd Hseat.
  - exists g. rewrite Nat.add_0_r. split; [done|]. split; [done|].
    rewrite Nat.mod_small; [done|].
    unfold seat in Hseat. destruct (players g !! i) eqn:E; [|done].
    by apply lookup_lt_Some in E.
  - destruct (getNextPlayer_seat g i Hnd Hseat) as (next & Hnext & Hs).
    simpl. rewrite Hnext.
    destruct (IH (set_currentTurn next g) ((i + 1) mod length (players g)))
      as (g' & Hrot & Hpl & Hcur); [done|done|].
    exists g'. split; [done|]. split; [done|].
    simpl in Hcur. unfold seat in *. simpl in Hcur. rewrite <- Hcur.
    do 2 f_equal.
    assert (length (players g) ≠ 0) as Hlen.
    { intros H0. destruct (players g); [|done]. by rewrite lookup_nil in Hs. }
    rewrite Nat.Div0.add_mod_idemp_l. f_equal. lia.
Qed.

Lemma getNextPlayer_same_seats (g g' : Game) :
  players g' = players g → currentTurn g' = currentTurn g →
  getNextPlayer g' = getNextPlayer g.
Proof. unfold getNextPlayer. by intros -> ->. Qed.

Lemma makeMove_turn (g : Game) (p : string) (c : nat) (now : Z) (next : string) :
  length (column_stack g c) < 6 → getNextPlayer g = Ok next →
  currentTurn (fst (makeMove g p c now)) = next.
Proof.
  intros Hlt Hnext. rewrite makeMove_eq.
  destruct (Nat.leb_spec 6 (length (column_stack g c))); [lia|].
  cbv zeta.
  rewrite (getNextPlayer_same_seats g), Hnext; [done|..];
    unfold ensured; by destruct (js_get (board g) c).
Qed.

(** C3. In a room whose players have distinct ids, when the turn is
    with the player in seat [i], [getNextPlayer] names the player in seat
    [(i + 1) mod N]; passing the turn [k] times leaves it with seat
    [(i + k) mod N], so [N] passes bring it back to the same player; and
    a drop that lands passes the turn exactly so. *)
Theorem turn_round_robin (g : Game) (i : nat) :
  NoDup (id <$> players g) → seat g i = Some (currentTurn g) →
  let N := length (players g) in
  (∃ next, getNextPlayer g = Ok next ∧ seat g ((i + 1) mod N) = Some next) ∧
  (∀ k, ∃ g', rotate k g = Ok g' ∧ players g' = players g ∧
              seat g ((i + k) mod N) = Some (currentTurn g')) ∧
  (∃ g', rotate N g = Ok g' ∧ currentTurn g' = currentTurn g) ∧
  (∀ p c now, length (column_stack g c) < 6 →
     seat g ((i + 1) mod N) = Some (currentTurn (fst (makeMove g p c now)))).
Proof.
  intros Hnd Hseat N. split; [by apply getNextPlayer_seat|].
  split; [intros k; by apply rotate_seat|]. split.
  - destruct (rotate_seat N g i Hnd Hseat) as (g' & Hrot & _ & Hcur).
    exists g'. split; [done|].
    assert (i < N) as Hi.
    { unfold seat in Hseat. destruct (players g !! i) eqn:E; [|done].
      by apply lookup_lt_Some in E. }
    fold N in Hcur.
    replace ((i + N) mod N) with i in Hcur; [congruence|].
    rewrite <- Nat.Div0.add_mod_idemp_r, Nat.Div0.mod_same, Nat.add_0_r.
    symmetry. by apply Nat.mod_small.
  - intros p c now Hlt.
    destruct (getNextPlayer_seat g i Hnd Hseat) as (next & Hnext & Hs).
    by rewrite (makeMove_turn g p c now next).
Qed.

Lemma turn_round_robin_witness :
  NoDup (id <$> players demo_room) ∧
  seat demo_room 0 = Some (currentTurn demo_room) ∧
  (∃ next, getNextPlayer demo_room = Ok next ∧ seat demo_room ((0 + 1) mod 2) = Some next) ∧
  (∀ k, ∃ g', rotate k demo_room = Ok g' ∧ players g' = players demo_room ∧
              seat demo_room ((0 + k) mod 2) = Some (currentTurn g')) ∧
  (∃ g', rotate 2 demo_room = Ok g' ∧ currentTurn g' = currentTurn demo_room) ∧
  (∀ p c now, length (column_stack demo_room c) < 6 →
     seat demo_room ((0 + 1) mod 2)
     = Some (currentTurn (fst (makeMove demo_room p c now)))).
Proof.
  assert (NoDup (id <$> players demo_room)) as Hnd.
  { apply (bool_decide_unpack _). vm_compute. reflexivity. }
  split; [exact Hnd|]. split; [reflexivity|].
  apply (turn_round_robin demo_room 0 Hnd). reflexivity.
Defined.


(** *** [double_drop] *)

Lemma makeMove_outcome (g : Game) (p : string) (c : nat) (now : Z) :
  players g ≠ [] →
  snd (makeMove g p c now)
  = Ok (if 6 <=? length (column_stack g c) then None
        else Some (c, length (column_stack g c))).
Proof.
  intros Hne.
  destruct (Nat.leb_spec 6 (length (column_stack g c))) as [Hfull|Hlt].
  - by rewrite makeMove_full.
  - by destruct (makeMove_returns g p c now Hne Hlt) as [next ->].
Qed.

Lemma makeMove_stack (g : Game) (p : string) (c c' : nat) (now : Z) :
  column_stack (fst (makeMove g p c now)) c'
  = column_stack g c'
    ++ (if bool_decide (c' = c) && (length (column_stack g c) <? 6) then [p] else []).
Proof.
  destruct (Nat.ltb_spec (length (column_stack g c)) 6) as [Hlt|Hfull].
  - destruct (decide (c' = c)) as [->|Hne].
    + rewrite bool_decide_eq_true_2 by done. simpl.
      unfold column_stack at 1. by rewrite makeMove_get.
    + rewrite bool_decide_eq_false_2 by done. simpl. rewrite app_nil_r.
      unfold column_stack. by rewrite makeMove_get_ne.
  - rewrite makeMove_full by done. by rewrite andb_false_r, app_nil_r.
Qed.

(** C2, as the simulation has it.  A double drop checks nothing in
    advance and does not fail: both target columns are drawn in [0, 6],
    the two drops are made one after the other, and each lands exactly
    when its own column holds fewer than six discs at that moment (a drop
    that does not land is reported as [null] and changes nothing).  So
    every column ends with the discs it had, then the first drop if it
    landed there, then the second if it landed there; with one target
    column full and the other not, the other one has the new disc; and
    the board is left as it was exactly when both target columns are
    full. *)
Theorem double_drop_independent (g : Game) (p : string) (d : PowerUpDraws) :
  chosenPowerUp d = "double_drop" → players g ≠ [] →
  let c1 := rand_below 7 (d_col1 d) in
  let c2 := rand_below 7 (d_col2 d) in
  let g1 := fst (makeMove g p c1 (t_drop1 d)) in
  let g2 := fst (makeMove g1 p c2 (t_drop2 d)) in
  let drop1 := if 6 <=? length (column_stack g c1) then None
               else Some (c1, length (column_stack g c1)) in
  let drop2 := if 6 <=? length (column_stack g1 c2) then None
               else Some (c2, length (column_stack g1 c2)) in
  let g' := fst (usePowerUp g p d) in
  c1 < 7 ∧ c2 < 7 ∧
  usePowerUp g p d
  = (set_eventCount (S (eventCount g2)) (set_lastEventTime (t_end d) g2),
     Ok ("double_drop", EffDoubleDrop drop1 drop2)) ∧
  (∀ c, column_stack g' c
        = column_stack g c
          ++ (if bool_decide (c = c1) && (length (column_stack g c1) <? 6)
              then [p] else [])
          ++ (if bool_decide (c = c2) && (length (column_stack g1 c2) <? 6)
              then [p] else [])) ∧
  (6 ≤ length (column_stack g c1) → length (column_stack g c2) < 6 →
     column_stack g' c2 = column_stack g c2 ++ [p]) ∧
  (length (column_stack g c1) < 6 → 6 ≤ length (column_stack g c2) →
     column_stack g' c1 = column_stack g c1 ++ [p]) ∧
  (board g' = board g
   ↔ 6 ≤ length (column_stack g c1) ∧ 6 ≤ length (column_stack g c2)).
Proof.
  intros Hkind Hne c1 c2 g1 g2 drop1 drop2 g'.
  split; [apply rand_below_lt; lia|]. split; [apply rand_below_lt; lia|].
  assert (usePowerUp g p d
          = (set_eventCount (S (eventCount g2)) (set_lastEventTime (t_end d) g2),
             Ok ("double_drop", EffDoubleDrop drop1 drop2))) as Heq.
  { rewrite usePowerUp_eq, Hkind. unfold powerUpSwitch.
    simpl String.eqb. cbv iota zeta. fold c1 c2.
    assert (players g1 ≠ []) as Hne1.
    { unfold g1. by rewrite makeMove_players. }
    rewrite (surjective_pairing (makeMove g p c1 (t_drop1 d))).
    rewrite (makeMove_outcome g p c1) by done. fold g1.
    rewrite (surjective_pairing (makeMove g1 p c2 (t_drop2 d))).
    rewrite (makeMove_outcome g1 p c2) by done.
    done. }
  split; [done|].
  assert (board g' = board g2) as Hboard.
  { unfold g'. by rewrite Heq. }
  assert (∀ c, column_stack g' c
               = column_stack g c
                 ++ (if bool_decide (c = c1) && (length (column_stack g c1) <? 6)
                     then [p] else [])
                 ++ (if bool_decide (c = c2) && (length (column_stack g1 c2) <? 6)
                     then [p] else [])) as Hstacks.
  { intros c. unfold column_stack at 1. rewrite Hboard.
    fold (column_stack g2 c). unfold g2. rewrite makeMove_stack.
    unfold g1 at 1. rewrite makeMove_stack. by rewrite <- app_assoc. }
  assert (6 ≤ length (column_stack g c1) → g1 = g) as Hsame.
  { intros Hfull. unfold g1. by rewrite makeMove_full. }
  split; [exact Hstacks|]. split; [|split; [|split]].
  - intros Hfull1 Hroom2. rewrite Hstacks, (Hsame Hfull1).
    rewrite bool_decide_eq_false_2 by (intros ->; lia). simpl.
    rewrite bool_decide_eq_true_2 by done.
    by destruct (Nat.ltb_spec (length (column_stack g c2)) 6); [|lia].
  - intros Hroom1 Hfull2. rewrite Hstacks.
    rewrite bool_decide_eq_true_2 by done.
    destruct (Nat.ltb_spec (length (column_stack g c1)) 6); [|lia]. simpl.
    rewrite (bool_decide_eq_false_2 (c1 = c2)) by (intros Hc; rewrite Hc in Hroom1; lia).
    done.
  - intros Hunchanged.
    assert (∀ c, column_stack g' c = column_stack g c) as Heach.
    { intros c. unfold column_stack. by rewrite Hunchanged. }
    assert (6 ≤ length (column_stack g c1)) as Hfull1.
    { specialize (Heach c1). rewrite Hstacks in Heach.
      rewrite bool_decide_eq_true_2 in Heach by done.
      destruct (Nat.ltb_spec (length (column_stack g c1)) 6) as [Hlt|]; [|done].
      apply (f_equal length) in Heach. rewrite !length_app in Heach. simpl in Heach. lia. }
    split; [done|].
    specialize (Heach c2). rewrite Hstacks, (Hsame Hfull1) in Heach.
    rewrite (bool_decide_eq_true_2 (c2 = c2)) in Heach by done.
    destruct (Nat.ltb_spec (length (column_stack g c2)) 6) as [Hlt|]; [|done].
    apply (f_equal length) in Heach. rewrite !length_app in Heach.
    rewrite andb_true_r in Heach. simpl in Heach. lia.
  - intros [Hfull1 Hfull2]. rewrite Hboard.
    unfold g2, g1. rewrite (makeMove_full g p c1) by done. simpl.
    by rewrite (makeMove_full g p c2).
Qed.

Lemma double_drop_independent_witness :
  chosenPowerUp double_drop_1_0 = "double_drop" ∧
  players (run fill_column_0 demo_room) ≠ [] ∧
  usePowerUp (run fill_column_0 demo_room) "player1_9f1c" double_drop_1_0
  = (set_eventCount 8
       (set_lastEventTime 9
          (fst (makeMove (run fill_column_0 demo_room) "player1_9f1c" 1 7))),
     Ok ("double_drop", EffDoubleDrop (Some (1, 0)) None)).
Proof.
  split; [reflexivity|]. split; [vm_compute; discriminate|].
  destruct (double_drop_independent (run fill_column_0 demo_room) "player1_9f1c"
              double_drop_1_0) as (_ & _ & Heq & _).
  - reflexivity.
  - vm_compute. discriminate.
  - rewrite Heq. vm_compute. reflexivity.
Defined.


(** C2 fails as stated: in the room reached by filling column 0, a double
    drop on columns 1 and 0 does not fail; its second drop cannot land
    (column 0 holds six discs), yet its first drop is on column 1
    afterwards. *)
Lemma double_drop_partial :
  ∃ g0, createGameRoom demo_uuid 2 0 0 = Ok g0 ∧
    let g := run fill_column_0 g0 in
    let d := double_drop_1_0 in
    chosenPowerUp d = "double_drop" ∧
    rand_below 7 (d_col1 d) = 1 ∧ rand_below 7 (d_col2 d) = 0 ∧
    length (column_stack g 0) = 6 ∧
    column_stack g 1 = [] ∧
    snd (usePowerUp g "player1_9f1c" d)
    = Ok ("double_drop", EffDoubleDrop (Some (1, 0)) None) ∧
    column_stack (fst (usePowerUp g "player1_9f1c" d)) 1 = ["player1_9f1c"] ∧
    board (fst (usePowerUp g "player1_9f1c" d)) ≠ board g.
Proof.
  eexists. split; [reflexivity|].
  vm_compute. repeat split; done.
Qed.

(** *** Power-ups and the turn *)

Lemma usePowerUp_keeps_turn (g : Game) (p : string) (d : PowerUpDraws) :
  chosenPowerUp d ≠ "double_drop" →
  ∃ g' effect,
    usePowerUp g p d = (g', Ok (chosenPowerUp d, effect)) ∧
    currentTurn g' = currentTurn g ∧ players g' = players g ∧
    eventCount g' = S (eventCount g).
Proof.
  intros Hnot. rewrite usePowerUp_eq. revert Hnot. power_up_cases d; intros Hnot.
  - done.
  - eexists _, _. by cbn.
  - eexists _, _. by cbn.
  - unfold powerUpSwitch. simpl String.eqb. cbv iota zeta.
    destruct (js_get (board g) _) as [stack|]; [|eexists _, _; by cbn].
    destruct (0 <? length stack); eexists _, _; by cbn.
  - eexists _, _. by cbn.
Qed.

(** *** [checkGameOver] *)

Lemma winType_cases (d : GameOverDraws) :
  default "" (winTypes !! rand_below (length winTypes) (d_winType d)) ∈ winTypes.
Proof.
  pose proof (rand_below_lt (length winTypes) (d_winType d)) as Hlt.
  destruct (winTypes !! rand_below (length winTypes) (d_winType d)) as [k|] eqn:Hk.
  - simpl. by apply list_elem_of_lookup_2 in Hk.
  - apply lookup_ge_None in Hk. simpl in *. lia.
Qed.

Lemma winPositions_line (winType : string) (c r : nat) :
  winType ∈ winTypes →
  map (winPosition winType c r) (seq 0 4) = lineCells winType c r.
Proof.
  unfold winTypes. intros H.
  repeat (apply elem_of_cons in H as [->|H]); [..|by apply elem_of_nil in H];
    unfold lineCells, winPosition; simpl; repeat f_equal; lia.
Qed.

Lemma lineCells_on_board (winType : string) (c r : nat) :
  c < 4 → r < 3 → Forall (fun cell => fst cell < 7 ∧ snd cell < 6) (lineCells winType c r).
Proof.
  intros Hc Hr. unfold lineCells.
  repeat destruct (String.eqb winType _);
    repeat (apply Forall_cons_2; [simpl; lia|]); apply Forall_nil_2.
Qed.

Lemma checkGameOver_record (g g' : Game) (d : GameOverDraws) (now : Z) (w : GameOver) :
  checkGameOver g d now = (g', Ok (Some w)) →
  g' = set_gameOver true g ∧
  (∃ pl, pl ∈ players g ∧ winner w = id pl) ∧
  winType w ∈ winTypes ∧
  ∃ c r, c < 4 ∧ r < 3 ∧ positions w = lineCells (winType w) c r.
Proof.
  unfold checkGameOver.
  destruct (_ || _); [|done].
  destruct (players g !! _) as [pl|] eqn:Hpl; [|done].
  intros [= <- <-]. simpl.
  split; [done|]. split; [exists pl; split; [by eapply list_elem_of_lookup_2|done]|].
  split; [apply winType_cases|].
  exists (rand_below 4 (d_startCol d)), (rand_below 3 (d_startRow d)).
  split; [apply rand_below_lt; lia|]. split; [apply rand_below_lt; lia|].
  apply winPositions_line, winType_cases.
Qed.

(** *** The rooms of the simulation are well seated *)

Lemma pretty_N_go_no_underscore (x : N) (s : string) :
  no_underscore s = true → no_underscore (pretty_N_go x s) = true.
Proof.
  revert s. induction (N.lt_wf_0 x) as [x _ IH]; intros s Hs.
  assert (x = 0 ∨ 0 < x)%N as [->|Hpos] by lia.
  - by rewrite pretty_N_go_0.
  - rewrite pretty_N_go_step by done. apply IH; [by apply N.div_lt|].
    simpl. rewrite Hs. unfold pretty_N_char. by repeat case_match.
Qed.

Lemma pretty_nat_no_underscore (n : nat) : no_underscore (pretty n) = true.
Proof.
  unfold pretty, pretty_nat, pretty, pretty_N.
  case_decide; [done|]. by apply pretty_N_go_no_underscore.
Qed.

Lemma underscore_splits (a b s s' : string) :
  no_underscore a = true → no_underscore b = true →
  a +:+ "_" +:+ s = b +:+ "_" +:+ s' → a = b.
Proof.
  revert b. induction a as [|c a IH]; intros [|c' b] Ha Hb Heq; simpl in *.
  - done.
  - injection Heq as <- _. done.
  - injection Heq as -> _. done.
  - injection Heq as -> Heq.
    apply andb_prop in Ha as [_ Ha]. apply andb_prop in Hb as [_ Hb].
    f_equal. by apply IH.
Qed.

Lemma makePlayers_ids (uuid : nat → string) (first n : nat) (p : Player) :
  p ∈ makePlayers uuid first n →
  ∃ i tail, first ≤ i ∧ id p = "player" +:+ pretty (i + 1) +:+ "_" +:+ tail.
Proof.
  revert first. induction n as [|n IH]; intros first Hp; simpl in Hp.
  - by apply elem_of_nil in Hp.
  - apply elem_of_cons in Hp as [->|Hp].
    + eexists first, _. split; [lia|reflexivity].
    + destruct (IH _ Hp) as (i & tail & Hi & Hid).
      exists i, tail. split; [lia|done].
Qed.

Lemma makePlayers_NoDup (uuid : nat → string) (first n : nat) :
  NoDup (id <$> makePlayers uuid first n).
Proof.
  revert first. induction n as [|n IH]; intros first; simpl.
  - constructor.
  - constructor; [|apply IH].
    intros Hin. apply list_elem_of_fmap in Hin as (p & Hid & Hp).
    destruct (makePlayers_ids _ _ _ _ Hp) as (i & tail & Hi & Hp').
    rewrite Hp' in Hid. simpl in Hid. injection Hid as Hid.
    apply underscore_splits in Hid; [|apply pretty_nat_no_underscore..].
    apply (inj pretty) in Hid. lia.
Qed.

Lemma createGameRoom_well_seated (uuid : nat → string) (n : nat) (now1 now2 : Z)
    (g : Game) :
  createGameRoom uuid n now1 now2 = Ok g → well_seated g.
Proof.
  unfold createGameRoom.
  destruct (makePlayers uuid 0 n) as [|p0 ps] eqn:Hps; [done|].
  intros [= <-]. split.
  - change (NoDup (id <$> p0 :: ps)). rewrite <- Hps. apply makePlayers_NoDup.
  - by exists 0.
Qed.

Lemma makeMove_well_seated (g : Game) (p : string) (c : nat) (now : Z) :
  well_seated g → well_seated (fst (makeMove g p c now)).
Proof.
  intros [Hnd [i Hseat]]. split; [by rewrite makeMove_players|].
  destruct (Nat.leb_spec 6 (length (column_stack g c))) as [Hfull|Hlt].
  - rewrite makeMove_full by done. by exists i.
  - destruct (getNextPlayer_seat g i Hnd Hseat) as (next & Hnext & Hs).
    exists ((i + 1) mod length (players g)). unfold seat in *.
    rewrite makeMove_players, (makeMove_turn g p c now next) by done. done.
Qed.

Lemma usePowerUp_well_seated (g : Game) (p : string) (d : PowerUpDraws) :
  well_seated g → well_seated (fst (usePowerUp g p d)).
Proof.
  intros Hg.
  destruct (decide (chosenPowerUp d = "double_drop")) as [Hkind|Hkind].
  - assert (well_seated (fst (powerUpSwitch g p "double_drop" (rand_below 7 (d_target d)) d)))
      as Hswitch.
    { destruct (doubleDrop_fst g p (rand_below 7 (d_target d)) d) as [->|[-> _]];
        auto using makeMove_well_seated. }
    rewrite usePowerUp_eq, Hkind.
    by destruct (powerUpSwitch _ _ _ _ _) as [g1 [eff|e]].
  - destruct (usePowerUp_keeps_turn g p d Hkind) as (g' & eff & -> & Hturn & Hpl & _).
    unfold well_seated, seat in *. simpl. by rewrite Hturn, Hpl.
Qed.

Lemma run_well_seated (ops : list Op) (g : Game) :
  well_seated g → well_seated (run ops g).
Proof.
  revert g. induction ops as [|o ops IH]; intros g Hg; [done|].
  simpl. apply IH. destruct o as [p c now|p d|d now]; simpl.
  - by apply makeMove_well_seated.
  - by apply usePowerUp_well_seated.
  - unfold checkGameOver. destruct (_ || _); [|done].
    by destruct (players g !! _).
Qed.

Lemma well_seated_players (g : Game) : well_seated g → players g ≠ [].
Proof.
  intros [_ [i Hseat]] Hnil. unfold seat in Hseat. by rewrite Hnil in Hseat.
Qed.

Lemma run_players (ops : list Op) (g : Game) : players (run ops g) = players g.
Proof.
  revert g. induction ops as [|o ops IH]; intros g; [done|].
  simpl. rewrite IH. destruct o as [p c now|p d|d now]; simpl.
  - apply makeMove_players.
  - destruct (decide (chosenPowerUp d = "double_drop")) as [Hkind|Hkind].
    + rewrite usePowerUp_eq, Hkind.
      pose proof (doubleDrop_fst g p (rand_below 7 (d_target d)) d) as Hfst.
      destruct (powerUpSwitch _ _ _ _ _) as [g1 [eff|e]]; simpl in *;
        destruct Hfst as [->|[-> _]]; by rewrite ?makeMove_players.
    + by destruct (usePowerUp_keeps_turn g p d Hkind) as (g' & eff & -> & _ & Hpl & _).
  - unfold checkGameOver. destruct (_ || _); [|done].
    by destruct (players g !! _).
Qed.

(** In every room that the simulation creates and then runs, the seating
    is the one of the creation, the turn is with a seated player, and
    passing it goes round the seats in order. *)
Lemma simulation_rooms_rotate (uuid : nat → string) (n : nat) (now1 now2 : Z)
    (g0 : Game) (ops : list Op) :
  createGameRoom uuid n now1 now2 = Ok g0 →
  let g := run ops g0 in
  players g = players g0 ∧ players g ≠ [] ∧
  ∃ i, seat g i = Some (currentTurn g) ∧
       ∀ k, ∃ g', rotate k g = Ok g' ∧
                  seat g ((i + k) mod length (players g)) = Some (currentTurn g').
Proof.
  intros Hcreate g.
  assert (well_seated g) as Hg.
  { by eapply run_well_seated, createGameRoom_well_seated. }
  split; [apply run_players|]. split; [by apply well_seated_players|].
  destruct Hg as [Hnd [i Hseat]]. exists i. split; [done|].
  intros k. destruct (rotate_seat k g i Hnd Hseat) as (g' & Hrot & _ & Hcur).
  by exists g'.
Qed.

End SimulationFacts.



Module WebSocketServiceFacts.

Import WebSocketService.

(** *** Notification loops *)





Lemma bind_eq {S A B} (c : M S A) (k : A → M S B) (s s' : S) (a : A) :
  c s = (s', Ok a) → bind c k s = k a s'.
Proof. unfold bind. by intros ->. Qed.




Section SendFacts.

Context {Message : Type}.
Variable JSON_stringify : Message → result string.




End SendFacts.




End WebSocketServiceFacts.

Module UseGameFacts.

Import WebSocketService UseGame.

Lemma with_error_same_game (e : option string) (s : GameState) :
  same_game s (with_error e s) ∧ error (with_error e s) = e.
Proof. by repeat split. Qed.

(** *** Commands *)
Section CommandFacts.

Context {TargetData : Type}.
Variable JSON_stringify : @ClientMessage TargetData → result string.
Variable errorListener : nat.
Variable nowReconnecting : nat → bool.

Lemma makeMove_not_my_turn (gameState : GameState) (column : Z) (c : Client) :
  isMyTurn gameState = false →
  makeMove JSON_stringify errorListener nowReconnecting gameState column c
  = (mkClient (with_error (Some "It's not your turn yet!") (state c)) (ws c), Ok false).
Proof. unfold makeMove. by intros ->. Qed.

Lemma usePowerUp_no_uses (gameState : GameState) (powerUpId : string)
    (targetData : TargetData) (c : Client)
    (pu : PlayerPowerUp) :
  powerUps gameState !! powerUpId = Some pu → (remainingUses pu ≤ 0)%Z →
  usePowerUp JSON_stringify errorListener nowReconnecting gameState powerUpId targetData c
  = (mkClient (with_error (Some "You don't have any uses left for this power-up!") (state c))
              (ws c), Ok false).
Proof.
  intros Hpu Huses. unfold usePowerUp, readPowerUp. rewrite Hpu. simpl.
  apply Z.leb_le in Huses. by rewrite Huses.
Qed.

Lemma usePowerUp_not_my_turn (gameState : GameState) (powerUpId : string)
    (targetData : TargetData) (c : Client) :
  isMyTurn gameState = false →
  ∃ notice,
    usePowerUp JSON_stringify errorListener nowReconnecting gameState powerUpId targetData c
    = (mkClient (with_error (Some notice) (state c)) (ws c), Ok false).
Proof.
  intros Hturn. unfold usePowerUp. rewrite Hturn.
  destruct (noUsesLeft (readPowerUp gameState powerUpId)); by eexists.
Qed.

(** C6. A move asked for when it is not the player's turn, and a
    power-up asked for with no use left (or when it is not the player's
    turn), are turned down on the spot: the command returns [false],
    nothing is handed to the socket service, and of the client's state only
    the [error] notice changes. *)
Theorem rejected_requests_change_nothing (gameState : GameState) (c : Client) :
  (isMyTurn gameState = false →
     (∀ column, ∃ c' notice,
         makeMove JSON_stringify errorListener nowReconnecting gameState column c = (c', Ok false) ∧
         ws c' = ws c ∧ same_game (state c) (state c') ∧
         error (state c') = Some notice) ∧
     (∀ powerUpId targetData, ∃ c' notice,
         usePowerUp JSON_stringify errorListener nowReconnecting gameState powerUpId targetData c = (c', Ok false) ∧
         ws c' = ws c ∧ same_game (state c) (state c') ∧
         error (state c') = Some notice)) ∧
  (∀ powerUpId pu, powerUps gameState !! powerUpId = Some pu → remainingUses pu = 0%Z →
     ∀ targetData, ∃ c' notice,
         usePowerUp JSON_stringify errorListener nowReconnecting gameState powerUpId targetData c = (c', Ok false) ∧
         ws c' = ws c ∧ same_game (state c) (state c') ∧
         error (state c') = Some notice).
Proof.
  split; [intros Hturn; split|].
  - intros column. rewrite makeMove_not_my_turn by done.
    eexists _, _. repeat split.
  - intros powerUpId targetData.
    destruct (usePowerUp_not_my_turn gameState powerUpId targetData c Hturn)
      as [notice ->].
    eexists _, _. repeat split.
  - intros powerUpId pu Hpu Huses targetData.
    rewrite (usePowerUp_no_uses _ _ _ _ pu) by (done || lia).
    eexists _, _. repeat split.
Qed.

End CommandFacts.

Lemma rejected_requests_witness :
  isMyTurn (playing false) = false ∧
  powerUps spent !! "double_drop"
  = Some (powerUp "double_drop" "Double Drop" "Drop two discs in a single turn" 0) ∧
  (∃ c' notice,
     makeMove (fun _ : @ClientMessage unit => Ok "{}") 0 (fun _ => false) (playing false) 3
              (mkClient (playing false) open_service) = (c', Ok false) ∧
     ws c' = open_service ∧ same_game (playing false) (state c') ∧
     error (state c') = Some notice) ∧
  (∃ c' notice,
     usePowerUp (fun _ : @ClientMessage unit => Ok "{}") 0 (fun _ => false) spent
                "double_drop" tt
                (mkClient spent open_service) = (c', Ok false) ∧
     ws c' = open_service ∧ same_game spent (state c') ∧
     error (state c') = Some notice).
Proof.
  split; [reflexivity|]. split; [reflexivity|]. split.
  - destruct (rejected_requests_change_nothing
                (fun _ : @ClientMessage unit => Ok "{}") 0 (fun _ => false) (playing false)
                (mkClient (playing false) open_service)) as [Hturn _].
    destruct (Hturn eq_refl) as [Hmove _]. exact (Hmove 3%Z).
  - destruct (rejected_requests_change_nothing
                (fun _ : @ClientMessage unit => Ok "{}") 0 (fun _ => false) spent
                (mkClient spent open_service)) as [_ Huses].
    apply (Huses "double_drop"
             (powerUp "double_drop" "Double Drop" "Drop two discs in a single turn" 0));
      reflexivity.
Defined.

(** *** Handlers *)

Lemma power_up_used_keeps_turn (me : string) (parseInt : string → option Z)
    (message : PowerUpUsedMessage) (now1 now2 : Z) (st st' : GameState) :
  power_up_used me parseInt message now1 now2 st = Ok st' →
  isMyTurn st' = isMyTurn st ∧ room st' = room st ∧
  turnStartTime st' = turnStartTime st ∧ remainingTime st' = remainingTime st ∧
  powerUps st'
  = if String.eqb (pm_player_id message) me then
      match powerUps st !! pm_power_up_id message with
      | Some pu =>
          <[pm_power_up_id message :=
              mkPowerUp (pu_id pu) (pu_name pu) (pu_description pu)
                        (pm_remaining_uses message)]> (powerUps st)
      | None =>
          if inherited (pm_power_up_id message)
             && negb (String.eqb (pm_power_up_id message) "__proto__")
          then <[pm_power_up_id message :=
                   mkPowerUp None None None (pm_remaining_uses message)]> (powerUps st)
          else powerUps st
      end
    else powerUps st.
Proof.
  unfold power_up_used. cbv zeta.
  destruct (drop1 _) as [d1|]; [destruct (drop2 _) as [d2|]|].
  1: by intros [= <-].
  all: destruct (bombed _); [destruct (effect_column _); [by intros [= <-]|done]|].
  all: destruct (flipped _ && _); by intros [= <-].
Qed.

Lemma power_up_used_inventory (me : string) (parseInt : string → option Z)
    (message : PowerUpUsedMessage) (now1 now2 : Z) (st st' : GameState) :
  power_up_used me parseInt message now1 now2 st = Ok st' →
  (pm_player_id message = me → is_Some (powerUps st !! pm_power_up_id message) →
     remainingUses <$> powerUps st' !! pm_power_up_id message
     = Some (pm_remaining_uses message)) ∧
  (∀ k, k ≠ pm_power_up_id message → powerUps st' !! k = powerUps st !! k) ∧
  (pm_player_id message ≠ me → powerUps st' = powerUps st).
Proof.
  intros Hused.
  apply power_up_used_keeps_turn in Hused as (_ & _ & _ & _ & ->).
  split; [|split].
  - intros Hme [pu Hpu]. apply String.eqb_eq in Hme. rewrite Hme, Hpu.
    by rewrite lookup_insert_eq.
  - intros k Hk. destruct (String.eqb _ me); [|done].
    destruct (powerUps st !! pm_power_up_id message); [by rewrite lookup_insert_ne|].
    destruct (_ && _); [by rewrite lookup_insert_ne|done].
  - intros Hme. apply String.eqb_neq in Hme. by rewrite Hme.
Qed.

(** C7, as the client has it.  The [turn_timeout] handler acts on every
    timeout notice, whoever holds the turn: the turn is the player's own
    exactly when the notice names the player as next, the turn clock
    restarts at the time of arrival, the remaining time is the one of the
    notice (the turn time limit if it carries none or zero) and the
    timed-out notice is shown; the board, the inventory, the room, the
    events, the win state, the chat and the connection are left as they
    were. *)
Theorem turn_timeout_unconditional (me : string) (message : TurnTimeoutMessage)
    (now : Z) (st : GameState) :
  let st' := turn_timeout me message now st in
  isMyTurn st' = String.eqb (tt_next_turn message) me ∧
  turnStartTime st' = seconds now ∧
  remainingTime st' = num_or (tt_remaining_time message) (turnTimeLimit st) ∧
  error st'
  = Some ((if String.eqb (tt_player_id message) me then "Your" else "Opponent's")
          +:+ " turn timed out!") ∧
  room st' = room st ∧ player st' = player st ∧ isConnected st' = isConnected st ∧
  board st' = board st ∧ powerUps st' = powerUps st ∧
  activeEvents st' = activeEvents st ∧ isGravityFlipped st' = isGravityFlipped st ∧
  winState st' = winState st ∧ messages st' = messages st ∧
  connectionState st' = connectionState st ∧ turnTimeLimit st' = turnTimeLimit st.
Proof. by repeat split. Qed.

(** C7 fails as stated.  The second player moves in time and the turn
    passes to the first player, whose client shows it; a timeout notice
    for the second player's turn that arrives now takes the turn away,
    restarts the clock and posts a notice. *)
Lemma stale_timeout_acts :
  ∃ st,
    move_made "player1" (fun _ => Some 3%Z) secondMoved 200000 (playing false) = Ok st ∧
    let st' := turn_timeout "player1" staleTimeout 250000 st in
    isMyTurn st = true ∧ isMyTurn st' = false ∧
    turnStartTime st = seconds 200000 ∧ turnStartTime st' = seconds 250000 ∧
    error st = None ∧ error st' = Some "Opponent's turn timed out!" ∧
    st' ≠ st.
Proof.
  eexists. split; [reflexivity|].
  cbv zeta. repeat split.
  intros Heq. apply (f_equal isMyTurn) in Heq. discriminate Heq.
Qed.

(** *** Across the simulation and the client *)

(** C4, as the code has it.  A power-up does not by itself pass the
    turn, and the simulation keeps no inventory: for every power-up other
    than the double drop, [usePowerUp] returns with the turn and the
    seating as they were and one more event counted; on the client, the
    [power_up_used] handler leaves [isMyTurn] and the turn clock as they
    were, sets the count of the player's own power-up of that kind to the
    [remaining_uses] of the notice, and touches no other count. *)
Theorem power_up_keeps_turn :
  (∀ g p d, Simulation.chosenPowerUp d ≠ "double_drop" →
     ∃ g' effect,
       Simulation.usePowerUp g p d = (g', Ok (Simulation.chosenPowerUp d, effect)) ∧
       Simulation.currentTurn g' = Simulation.currentTurn g ∧
       Simulation.players g' = Simulation.players g ∧
       Simulation.eventCount g' = S (Simulation.eventCount g)) ∧
  (∀ me parseInt message now1 now2 st st',
     power_up_used me parseInt message now1 now2 st = Ok st' →
     isMyTurn st' = isMyTurn st ∧
     turnStartTime st' = turnStartTime st ∧ remainingTime st' = remainingTime st ∧
     (pm_player_id message = me → is_Some (powerUps st !! pm_power_up_id message) →
        remainingUses <$> powerUps st' !! pm_power_up_id message
        = Some (pm_remaining_uses message)) ∧
     (∀ k, k ≠ pm_power_up_id message → powerUps st' !! k = powerUps st !! k) ∧
     (pm_player_id message ≠ me → powerUps st' = powerUps st)).
Proof.
  split.
  - intros g p d Hkind. by apply SimulationFacts.usePowerUp_keeps_turn.
  - intros me parseInt message now1 now2 st st' Hused.
    pose proof (power_up_used_keeps_turn _ _ _ _ _ _ _ Hused) as (? & _ & ? & ? & _).
    pose proof (power_up_used_inventory _ _ _ _ _ _ _ Hused) as (? & ? & ?).
    done.
Qed.

Lemma power_up_keeps_turn_witness :
  Simulation.chosenPowerUp Simulation.bomb_3 ≠ "double_drop" ∧
  (∃ g' effect,
     Simulation.usePowerUp Simulation.demo_room "player1_9f1c" Simulation.bomb_3
     = (g', Ok (Simulation.chosenPowerUp Simulation.bomb_3, effect)) ∧
     Simulation.currentTurn g' = Simulation.currentTurn Simulation.demo_room ∧
     Simulation.players g' = Simulation.players Simulation.demo_room ∧
     Simulation.eventCount g' = S (Simulation.eventCount Simulation.demo_room)) ∧
  ∃ st', power_up_used "player1" (fun _ => None) bombUsed 1 2 (playing true) = Ok st' ∧
    isMyTurn st' = isMyTurn (playing true) ∧
    remainingUses <$> powerUps st' !! "column_bomb" = Some 0%Z.
Proof.
  destruct power_up_keeps_turn as [Hsim Hclient].
  assert (Simulation.chosenPowerUp Simulation.bomb_3 ≠ "double_drop") as Hkind.
  { vm_compute. discriminate. }
  split; [exact Hkind|]. split.
  - exact (Hsim Simulation.demo_room "player1_9f1c" Simulation.bomb_3 Hkind).
  - eexists. split; [reflexivity|].
    destruct (Hclient "player1" (fun _ => None) bombUsed 1%Z 2%Z (playing true) _ eq_refl)
      as (Hturn & _ & _ & Hcount & _).
    split; [exact Hturn|].
    apply Hcount; [reflexivity|]. vm_compute. eauto.
Defined.

(** C4 fails as stated.  In a fresh room of two the first player bombs
    column 3: the power-up is used and the turn is still the first
    player's, not the second's.  In a fresh room of three the first
    player's double drop lands on columns 1 and 2 and the turn is the third
    player's: it moved twice.  On the client of the first player, the
    notice of the bomb leaves [isMyTurn] set. *)
Lemma power_up_turn_counts :
  (∃ g, Simulation.createGameRoom Simulation.demo_uuid 2 0 0 = Ok g ∧
     Simulation.currentTurn g = "player1_9f1c" ∧
     Simulation.getNextPlayer g = Ok "player2_9f1c" ∧
     snd (Simulation.usePowerUp g "player1_9f1c" Simulation.bomb_3)
     = Ok ("column_bomb", Simulation.EffBombed 3) ∧
     Simulation.currentTurn (fst (Simulation.usePowerUp g "player1_9f1c" Simulation.bomb_3))
     = "player1_9f1c") ∧
  (∃ g, Simulation.createGameRoom Simulation.demo_uuid 3 0 0 = Ok g ∧
     Simulation.currentTurn g = "player1_9f1c" ∧
     Simulation.getNextPlayer g = Ok "player2_9f1c" ∧
     snd (Simulation.usePowerUp g "player1_9f1c" Simulation.double_drop_1_2)
     = Ok ("double_drop", Simulation.EffDoubleDrop (Some (1, 0)) (Some (2, 0))) ∧
     Simulation.currentTurn
       (fst (Simulation.usePowerUp g "player1_9f1c" Simulation.double_drop_1_2))
     = "player3_9f1c") ∧
  (∃ st', power_up_used "player1" (fun _ => None) bombUsed 1 2 (playing true) = Ok st' ∧
     isMyTurn st' = true).
Proof.
  split; [|split].
  - eexists. split; [reflexivity|]. vm_compute. done.
  - eexists. split; [reflexivity|]. vm_compute. done.
  - eexists. split; [reflexivity|]. reflexivity.
Qed.

(** C5, as the code has it.  Every result of [checkGameOver] names the
    id of a seated player, one of the four win types, and four cells
    inside the seven-by-six board in a straight line of that type and of
    step one, and marks the game over without touching the board; the
    cells are drawn, not read from the board.  The client's [game_over]
    handler records winner, win type and cells as the notice gives them
    and changes nothing else. *)
Theorem game_over_record :
  (∀ g g' d now w,
     Simulation.checkGameOver g d now = (g', Ok (Some w)) →
     (∃ pl, pl ∈ Simulation.players g ∧ Simulation.winner w = Simulation.id pl) ∧
     Simulation.winType w ∈ Simulation.winTypes ∧
     length (Simulation.positions w) = 4 ∧
     (∃ c r, c < 4 ∧ r < 3 ∧
        Simulation.positions w = Simulation.lineCells (Simulation.winType w) c r) ∧
     Forall (fun cell => fst cell < 7 ∧ snd cell < 6) (Simulation.positions w) ∧
     Simulation.gameOver g' = true ∧ Simulation.board g' = Simulation.board g) ∧
  (∀ message st,
     winState (game_over message st)
     = mkWinState (Some (go_winner message)) (Some (go_win_type message))
                  (go_positions message) ∧
     error (game_over message st) = error st ∧ board (game_over message st) = board st ∧
     isMyTurn (game_over message st) = isMyTurn st ∧
     powerUps (game_over message st) = powerUps st).
Proof.
  split; [|by repeat split].
  intros g g' d now w Hover.
  destruct (SimulationFacts.checkGameOver_record g g' d now w Hover)
    as (-> & Hwin & Htype & c & r & Hc & Hr & Hpos).
  split; [done|]. split; [done|]. split.
  { rewrite Hpos. unfold Simulation.lineCells.
    by repeat destruct (String.eqb _ _). }
  split; [by exists c, r|]. split; [|done].
  rewrite Hpos. by apply SimulationFacts.lineCells_on_board.
Qed.

Lemma game_over_record_witness :
  ∃ g' w,
    Simulation.checkGameOver
      (Simulation.set_eventCount 31 Simulation.demo_room)
      Simulation.second_wins_row_0 10 = (g', Ok (Some w)) ∧
    (∃ pl, pl ∈ Simulation.players (Simulation.set_eventCount 31 Simulation.demo_room) ∧
           Simulation.winner w = Simulation.id pl) ∧
    Simulation.winType w ∈ Simulation.winTypes ∧
    length (Simulation.positions w) = 4 ∧
    Forall (fun cell => fst cell < 7 ∧ snd cell < 6) (Simulation.positions w).
Proof.
  destruct game_over_record as [Hsim _].
  eexists _, _. split; [reflexivity|].
  destruct (Hsim (Simulation.set_eventCount 31 Simulation.demo_room) _
                 Simulation.second_wins_row_0 10%Z _ eq_refl)
    as (Hwin & Htype & Hlen & _ & Hboard & _).
  auto.
Defined.

(** C5 fails as stated: after thirty-one gravity flips in a fresh room
    the board is empty, the game is declared over, and none of the four
    cells of the reported line holds a disc of the reported winner. *)
Lemma game_over_cells_not_owned :
  ∃ g0 g' w, Simulation.createGameRoom Simulation.demo_uuid 2 0 0 = Ok g0 ∧
    let g := Simulation.run
               (replicate 31 (Simulation.OpPowerUp "player1_9f1c"
                                                   Simulation.gravity_flip_draws)) g0 in
    Simulation.checkGameOver g Simulation.second_wins_row_0 10 = (g', Ok (Some w)) ∧
    Simulation.winner w = "player2_9f1c" ∧
    Simulation.winType w = "horizontal" ∧
    Simulation.positions w = [(1, 0); (2, 0); (3, 0); (4, 0)] ∧
    Simulation.board g' = replicate 7 (Some []) ∧
    existsb (Simulation.owned (Simulation.board g') (Simulation.winner w))
            (Simulation.positions w) = false.
Proof.
  eexists _, _, _. split; [reflexivity|].
  split; [vm_compute; reflexivity|].
  vm_compute. done.
Qed.

End UseGameFacts.


(** ** More on the simulation *)
Module SimulationExtras.

Import Simulation SimulationFacts.

Lemma js_set_set {A} (a : list (option A)) (i : nat) (v : A) :
  js_set (js_set a i v) i v = js_set a i v.
Proof.
  assert (i < length (js_set a i v)) as Hlt.
  { unfold js_set. destruct (i <? length a) eqn:Hi.
    - apply Nat.ltb_lt in Hi. by rewrite length_insert.
    - apply Nat.ltb_ge in Hi. rewrite !length_app, length_replicate. simpl. lia. }
  unfold js_set at 1. apply Nat.ltb_lt in Hlt. rewrite Hlt.
  apply list_insert_id. pose proof (js_get_set_eq a i v) as Hget.
  unfold js_get in Hget. destruct (js_set a i v !! i) as [[x|]|]; by simplify_eq/=.
Qed.

Lemma column_stack_get (g : Game) (c : nat) (stack : list string) :
  js_get (board g) c = Some stack → column_stack g c = stack.
Proof. unfold column_stack. by intros ->. Qed.

Lemma usePowerUp_bomb (g : Game) (p : string) (d : PowerUpDraws) :
  chosenPowerUp d = "column_bomb" →
  usePowerUp g p d
  = (set_eventCount (S (eventCount g))
       (set_lastEventTime (t_end d)
          (set_board (js_set (board g) (rand_below 7 (d_target d)) []) g)),
     Ok ("column_bomb", EffBombed (rand_below 7 (d_target d)))).
Proof. intros Hkind. rewrite usePowerUp_eq, Hkind. reflexivity. Qed.

(** X1. When [usePowerUp] draws [column_bomb] for column [c], the call
    returns, column [c] is empty afterwards and the other columns, the
    turn and the seating are as before; bombing the column again changes
    nothing more, and the next drop on it lands on row 0. *)
Theorem bomb_clears_column (g : Game) (p : string) (d : PowerUpDraws) :
  chosenPowerUp d = "column_bomb" →
  let c := rand_below 7 (d_target d) in
  ∃ g',
    usePowerUp g p d = (g', Ok ("column_bomb", EffBombed c)) ∧
    js_get (board g') c = Some [] ∧
    (∀ c', c ≠ c' → js_get (board g') c' = js_get (board g) c') ∧
    currentTurn g' = currentTurn g ∧ players g' = players g ∧
    board (fst (usePowerUp g' p d)) = board g' ∧
    (∀ q now, players g ≠ [] → snd (makeMove g' q c now) = Ok (Some (c, 0))).
Proof.
  intros Hkind c. rewrite (usePowerUp_bomb g) by done. fold c.
  eexists. split; [reflexivity|].
  split; [apply js_get_set_eq|]. split; [intros c' Hne; by apply js_get_set_ne|].
  split; [done|]. split; [done|]. split.
  - rewrite usePowerUp_bomb by done. fold c. apply js_set_set.
  - intros q now Hpl.
    match goal with |- snd (makeMove ?g1 _ _ _) = _ =>
      rewrite (makeMove_outcome g1) by done;
      rewrite (column_stack_get g1 c []) by apply js_get_set_eq end.
    done.
Qed.

Lemma bomb_clears_column_witness :
  chosenPowerUp bomb_3 = "column_bomb" ∧
  ∃ g', usePowerUp demo_room "player1_9f1c" bomb_3 = (g', Ok ("column_bomb", EffBombed 3)) ∧
        js_get (board g') 3 = Some [].
Proof.
  split; [reflexivity|].
  destruct (bomb_clears_column demo_room "player1_9f1c" bomb_3 eq_refl)
    as (g' & Heq & Hempty & _).
  exists g'. split; [exact Heq|exact Hempty].
Defined.

(** X2. A drop that lands on column [c] followed by an undo drawn for
    the same column gives every column the discs it had before the drop;
    the turn stays where the drop passed it. *)
Theorem drop_then_undo (g : Game) (p q : string) (c : nat) (now : Z) (d : PowerUpDraws) :
  length (column_stack g c) < 6 →
  chosenPowerUp d = "undo_move" → rand_below 7 (d_undo d) = c →
  let g1 := fst (makeMove g p c now) in
  let g2 := fst (usePowerUp g1 q d) in
  (∀ c', column_stack g2 c' = column_stack g c') ∧
  currentTurn g2 = currentTurn g1.
Proof.
  intros Hlt Hkind Hcol g1 g2.
  assert (js_get (board g1) c = Some (column_stack g c ++ [p])) as Hget.
  { by apply makeMove_get. }
  unfold g2. rewrite usePowerUp_eq, Hkind.
  unfold powerUpSwitch. simpl String.eqb. cbv iota zeta. rewrite Hcol, Hget.
  rewrite length_app. simpl.
  replace (0 <? length (column_stack g c) + 1) with true
    by (symmetry; apply Nat.ltb_lt; lia).
  cbn. rewrite removelast_last. split; [|done].
  intros c'. unfold column_stack at 1. cbn.
  destruct (decide (c = c')) as [<-|Hne].
  - by rewrite js_get_set_eq.
  - rewrite js_get_set_ne by done. unfold g1.
    rewrite makeMove_get_ne by done. done.
Qed.

Lemma drop_then_undo_witness :
  length (column_stack demo_room 0) < 6 ∧
  chosenPowerUp undo_0 = "undo_move" ∧ rand_below 7 (d_undo undo_0) = 0 ∧
  ∀ c', column_stack
          (fst (usePowerUp (fst (makeMove demo_room "player1_9f1c" 0 5))
                           "player2_9f1c" undo_0)) c'
        = column_stack demo_room c'.
Proof.
  split; [simpl; lia|]. split; [reflexivity|]. split; [reflexivity|].
  apply (drop_then_undo demo_room "player1_9f1c" "player2_9f1c" 0 5 undo_0);
    [simpl; lia|reflexivity|reflexivity].
Defined.

(** *** The turn under a double drop *)

Lemma usePowerUp_double_drop (g : Game) (p : string) (d : PowerUpDraws) :
  chosenPowerUp d = "double_drop" → players g ≠ [] →
  fst (usePowerUp g p d)
  = set_eventCount
      (S (eventCount (fst (makeMove (fst (makeMove g p (rand_below 7 (d_col1 d)) (t_drop1 d)))
                                    p (rand_below 7 (d_col2 d)) (t_drop2 d)))))
      (set_lastEventTime (t_end d)
         (fst (makeMove (fst (makeMove g p (rand_below 7 (d_col1 d)) (t_drop1 d)))
                        p (rand_below 7 (d_col2 d)) (t_drop2 d)))).
Proof.
  intros Hkind Hne. rewrite usePowerUp_eq, Hkind.
  unfold powerUpSwitch. simpl String.eqb. cbv iota zeta.
  pose proof (makeMove_outcome g p (rand_below 7 (d_col1 d)) (t_drop1 d) Hne) as H1.
  pose proof (makeMove_players g p (rand_below 7 (d_col1 d)) (t_drop1 d)) as Hpl.
  destruct (makeMove g p (rand_below 7 (d_col1 d)) (t_drop1 d)) as [g1 r1].
  cbn [fst snd] in H1, Hpl |- *. subst r1.
  assert (players g1 ≠ []) as Hne1 by (by rewrite Hpl).
  pose proof (makeMove_outcome g1 p (rand_below 7 (d_col2 d)) (t_drop2 d) Hne1) as H2.
  destruct (makeMove g1 p (rand_below 7 (d_col2 d)) (t_drop2 d)) as [g2 r2].
  cbn [fst snd] in H2 |- *. subst r2. reflexivity.
Qed.

Lemma one_drop_turn (g : Game) (p : string) (c : nat) (now : Z) (i : nat) :
  NoDup (id <$> players g) → seat g i = Some (currentTurn g) →
  seat g ((i + (if 6 <=? length (column_stack g c) then 0 else 1)) mod length (players g))
  = Some (currentTurn (fst (makeMove g p c now))).
Proof.
  intros Hnd Hseat.
  assert (i < length (players g)) as Hi.
  { unfold seat in Hseat. destruct (players g !! i) eqn:E; [|done].
    by apply lookup_lt_Some in E. }
  destruct (Nat.leb_spec 6 (length (column_stack g c))) as [Hfull|Hlt].
  - rewrite makeMove_full by done. rewrite Nat.add_0_r, Nat.mod_small by done. done.
  - destruct (getNextPlayer_seat g i Hnd Hseat) as (next & Hnext & Hs).
    by rewrite (makeMove_turn g p c now next).
Qed.

(** X3. In a room whose players have distinct ids, a double drop passes
    the turn once for each of its drops that lands: from seat [i] the turn
    goes to seat [(i + k) mod N], where [k] (0, 1 or 2) counts the landed
    drops; with two players and two landed drops it is back with the
    player who used the power-up. *)
Theorem double_drop_turn (g : Game) (p : string) (d : PowerUpDraws) (i : nat) :
  chosenPowerUp d = "double_drop" →
  NoDup (id <$> players g) → seat g i = Some (currentTurn g) →
  seat g ((i + landedDrops g p d) mod length (players g))
  = Some (currentTurn (fst (usePowerUp g p d))).
Proof.
  intros Hkind Hnd Hseat.
  assert (players g ≠ []) as Hne.
  { intros Hnil. unfold seat in Hseat. by rewrite Hnil in Hseat. }
  rewrite usePowerUp_double_drop by done. cbn [currentTurn set_eventCount set_lastEventTime].
  unfold landedDrops. cbv zeta.
  set (c1 := rand_below 7 (d_col1 d)). set (c2 := rand_below 7 (d_col2 d)).
  set (g1 := fst (makeMove g p c1 (t_drop1 d))).
  set (k1 := if 6 <=? length (column_stack g c1) then 0 else 1).
  set (k2 := if 6 <=? length (column_stack g1 c2) then 0 else 1).
  pose proof (one_drop_turn g p c1 (t_drop1 d) i Hnd Hseat) as H1.
  fold k1 g1 in H1.
  assert (players g1 = players g) as Hpl by apply makeMove_players.
  assert (seat g1 ((i + k1) mod length (players g)) = Some (currentTurn g1)) as Hseat1.
  { unfold seat in *. by rewrite Hpl. }
  assert (NoDup (id <$> players g1)) as Hnd1 by (by rewrite Hpl).
  pose proof (one_drop_turn g1 p c2 (t_drop2 d) _ Hnd1 Hseat1) as H2.
  fold k2 in H2. rewrite <- H2. unfold seat. rewrite Hpl.
  by rewrite Nat.Div0.add_mod_idemp_l, Nat.add_assoc.
Qed.

Lemma double_drop_turn_witness :
  chosenPowerUp double_drop_1_2 = "double_drop" ∧
  NoDup (id <$> players demo_room) ∧
  seat demo_room 0 = Some (currentTurn demo_room) ∧
  landedDrops demo_room "player1_9f1c" double_drop_1_2 = 2 ∧
  seat demo_room ((0 + landedDrops demo_room "player1_9f1c" double_drop_1_2) mod 2)
  = Some (currentTurn (fst (usePowerUp demo_room "player1_9f1c" double_drop_1_2))).
Proof.
  assert (NoDup (id <$> players demo_room)) as Hnd.
  { apply (bool_decide_unpack _). vm_compute. reflexivity. }
  split; [reflexivity|]. split; [exact Hnd|]. split; [reflexivity|].
  split; [reflexivity|].
  apply (double_drop_turn demo_room "player1_9f1c" double_drop_1_2 0);
    [reflexivity|exact Hnd|reflexivity].
Defined.

(** *** Events counted and the end of the game *)

Lemma makeMove_counts (g : Game) (p : string) (c : nat) (now : Z) :
  eventCount g ≤ eventCount (fst (makeMove g p c now)) ∧
  startTime (fst (makeMove g p c now)) = startTime g.
Proof.
  rewrite makeMove_eq.
  assert (eventCount (ensured g c) = eventCount g ∧ startTime (ensured g c) = startTime g)
    as [He Hs] by (unfold ensured; by destruct (js_get (board g) c)).
  unfold landed. revert He Hs. generalize (ensured g c). intros ge He Hs.
  destruct (6 <=? _); [cbn; by rewrite He, Hs|].
  cbv zeta. destruct (getNextPlayer _); cbn; rewrite ?He, ?Hs; split; (done || lia).
Qed.

Lemma usePowerUp_counts (g : Game) (p : string) (d : PowerUpDraws) :
  eventCount g ≤ eventCount (fst (usePowerUp g p d)) ∧
  startTime (fst (usePowerUp g p d)) = startTime g.
Proof.
  assert (eventCount g
          ≤ eventCount (fst (powerUpSwitch g p (chosenPowerUp d) (rand_below 7 (d_target d)) d)) ∧
          startTime (fst (powerUpSwitch g p (chosenPowerUp d) (rand_below 7 (d_target d)) d))
          = startTime g) as Hswitch.
  { power_up_cases d.
    - destruct (doubleDrop_fst g p (rand_below 7 (d_target d)) d) as [->|[-> _]].
      + pose proof (makeMove_counts g p (rand_below 7 (d_col1 d)) (t_drop1 d)) as [H1 H1'].
        pose proof (makeMove_counts (fst (makeMove g p (rand_below 7 (d_col1 d)) (t_drop1 d)))
                      p (rand_below 7 (d_col2 d)) (t_drop2 d)) as [H2 H2'].
        split; [lia|congruence].
      + apply makeMove_counts.
    - done.
    - done.
    - unfold powerUpSwitch. simpl String.eqb. cbv iota zeta.
      destruct (js_get (board g) _) as [stack|]; [|done].
      by destruct (0 <? length stack).
    - done. }
  rewrite usePowerUp_eq.
  destruct (powerUpSwitch _ _ _ _ _) as [g1 [eff|e]]; cbn in *; [|done].
  destruct Hswitch. split; [lia|done].
Qed.

Lemma run_counts (ops : list Op) (g : Game) :
  eventCount g ≤ eventCount (run ops g) ∧ startTime (run ops g) = startTime g.
Proof.
  revert g. induction ops as [|o ops IH]; intros g; [done|].
  simpl. destruct (IH (step g o)) as [Hc Hs].
  assert (eventCount g ≤ eventCount (step g o) ∧ startTime (step g o) = startTime g)
    as [Hc' Hs'].
  { destruct o as [p c now|p d|d now]; simpl.
    - apply makeMove_counts.
    - apply usePowerUp_counts.
    - unfold checkGameOver. destruct (_ || _); [|done].
      by destruct (players g !! _). }
  split; [lia|congruence].
Qed.

(** X4. [checkGameOver] returns [null], leaving the game as it is,
    exactly while at most 30 events are counted and at most five minutes
    have passed since the start; and once it has returned a result for a
    game, it returns a result again after any further moves, power-ups and
    checks, at any later time. *)
Theorem game_over_is_permanent (g : Game) (d : GameOverDraws) (now : Z) :
  (checkGameOver g d now = (g, Ok None)
   ↔ eventCount g ≤ 30 ∧ (now - startTime g ≤ 300000)%Z) ∧
  (∀ g' w ops d' now',
     checkGameOver g d now = (g', Ok (Some w)) → (now ≤ now')%Z →
     ∃ g'' w', checkGameOver (run ops g) d' now' = (g'', Ok (Some w'))).
Proof.
  split.
  - unfold checkGameOver.
    destruct (30 <? eventCount g) eqn:Hc; simpl.
    + apply Nat.ltb_lt in Hc. split; [|lia].
      destruct (players g !! _); done.
    + apply Nat.ltb_ge in Hc.
      destruct (5 * 60 * 1000 <? now - startTime g)%Z eqn:Ht.
      * apply Z.ltb_lt in Ht. split; [|lia]. destruct (players g !! _); done.
      * apply Z.ltb_ge in Ht. split; [|done]. intros _. split; [done|lia].
  - intros g' w ops d' now' Hover Hlater.
    destruct (run_counts ops g) as [Hcount Hstart].
    pose proof (run_players ops g) as Hpl.
    unfold checkGameOver in *. rewrite Hstart, Hpl.
    assert (players g ≠ []) as Hne.
    { intros Hnil. rewrite Hnil in Hover. destruct (_ || _); done. }
    assert ((30 <? eventCount (run ops g)) || (5 * 60 * 1000 <? now' - startTime g)%Z = true)
      as ->.
    { destruct ((30 <? eventCount g) || (5 * 60 * 1000 <? now - startTime g)%Z) eqn:Hcond;
        [|done].
      apply orb_true_iff in Hcond as [Hc|Ht].
      - apply Nat.ltb_lt in Hc. apply orb_true_iff. left. apply Nat.ltb_lt. lia.
      - apply Z.ltb_lt in Ht. apply orb_true_iff. right. apply Z.ltb_lt. lia. }
    assert (rand_below (length (players g)) (d_winner d') < length (players g)) as Hlt.
    { apply rand_below_lt. destruct (players g); [done|simpl; lia]. }
    apply lookup_lt_is_Some_2 in Hlt as [pl ->]. eauto.
Qed.

Lemma game_over_is_permanent_witness :
  checkGameOver (set_eventCount 31 demo_room) second_wins_row_0 10
  = (set_gameOver true (set_eventCount 31 demo_room),
     Ok (Some (mkGameOver "player2_9f1c" "horizontal" [(1, 0); (2, 0); (3, 0); (4, 0)]))) ∧
  (10 ≤ 20)%Z ∧
  ∃ g'' w', checkGameOver (run fill_column_0 (set_eventCount 31 demo_room))
                          second_wins_row_0 20 = (g'', Ok (Some w')).
Proof.
  assert (checkGameOver (set_eventCount 31 demo_room) second_wins_row_0 10
          = (set_gameOver true (set_eventCount 31 demo_room),
             Ok (Some (mkGameOver "player2_9f1c" "horizontal"
                                  [(1, 0); (2, 0); (3, 0); (4, 0)])))) as Hover.
  { vm_compute. reflexivity. }
  split; [exact Hover|]. split; [lia|].
  destruct (game_over_is_permanent (set_eventCount 31 demo_room) second_wins_row_0 10)
    as [_ Hlater].
  apply (Hlater _ _ fill_column_0 second_wins_row_0 20%Z Hover). lia.
Defined.

(** *** Discs under moves *)

Lemma makeMove_prefix (g : Game) (p : string) (c c' : nat) (now : Z) :
  column_stack g c' `prefix_of` column_stack (fst (makeMove g p c now)) c'.
Proof.
  destruct (Nat.leb_spec 6 (length (column_stack g c))) as [Hfull|Hlt].
  { by rewrite makeMove_full. }
  destruct (decide (c = c')) as [<-|Hne].
  - rewrite (column_stack_get _ c _ (makeMove_get g p c now Hlt)).
    by apply prefix_app_r.
  - unfold column_stack. by rewrite makeMove_get_ne.
Qed.

(** X5. A run of moves never removes, replaces or reorders a disc: in
    every column the discs present before the run are, in the same order,
    the bottom discs after it. *)
Theorem moves_keep_discs (ops : list Op) (g : Game) (c : nat) :
  only_moves ops = true →
  column_stack g c `prefix_of` column_stack (run ops g) c.
Proof.
  revert g. induction ops as [|o ops IH]; intros g Hmoves; [done|].
  simpl in Hmoves. apply andb_prop in Hmoves as [Ho Hops].
  destruct o as [p c0 now| |]; try done.
  simpl. etrans; [|by apply IH]. apply makeMove_prefix.
Qed.

Lemma moves_keep_discs_witness :
  only_moves fill_column_0 = true ∧
  column_stack demo_room 0 `prefix_of` column_stack (run fill_column_0 demo_room) 0.
Proof.
  split; [reflexivity|].
  apply (moves_keep_discs fill_column_0 demo_room 0). reflexivity.
Defined.

(** *** The room registry *)

Lemma registry_get_set_eq (reg : Registry) (key : string) (g : Game) :
  registry_get (registry_set reg key g) key = Some g.
Proof.
  induction reg as [|[k g'] reg IH]; simpl.
  - by rewrite String.eqb_refl.
  - destruct (String.eqb k key) eqn:Hk; simpl; by rewrite Hk.
Qed.

Lemma registry_get_keys (reg : Registry) (key : string) (g : Game) :
  registry_get reg key = Some g → key ∈ reg.*1.
Proof.
  induction reg as [|[k g'] reg IH]; simpl; [done|].
  destruct (String.eqb k key) eqn:Hk.
  - apply String.eqb_eq in Hk as ->. intros _. apply elem_of_cons. by left.
  - intros Hget. apply elem_of_cons. right. by apply IH.
Qed.

Lemma makePlayers_length (uuid : nat → string) (first n : nat) :
  length (makePlayers uuid first n) = n.
Proof. revert first. induction n as [|n IH]; intros first; simpl; by rewrite ?IH. Qed.

Lemma createGameRoom_fresh (uuid : nat → string) (n : nat) (now1 now2 : Z) :
  0 < n →
  ∃ g, createGameRoom uuid n now1 now2 = Ok g ∧
       gameOver g = false ∧ length (players g) = n ∧
       eventCount g = 0 ∧ board g = replicate 7 (Some []).
Proof.
  intros Hn. unfold createGameRoom.
  pose proof (makePlayers_length uuid 0 n) as Hlen.
  destruct (makePlayers uuid 0 n) as [|p0 ps]; [simpl in Hlen; lia|].
  eexists. split; [reflexivity|]. done.
Qed.

(** X6. [getRandomActiveGame] always returns a game, and never one that
    is over.  If some registered game is not over it returns one of those
    and leaves the registry as it is; only when every registered game is
    over does it create a room, of two to four players and with an empty
    board, and register it under its room id. *)
Theorem getRandomActiveGame_not_over (reg : Registry) (d : PickDraws) :
  ∃ reg' g,
    getRandomActiveGame reg d = (reg', Ok g) ∧ gameOver g = false ∧
    ((reg' = reg ∧ ∃ key, key ∈ reg.*1 ∧ registry_get reg key = Some g) ∨
     ((∀ key g0, registry_get reg key = Some g0 → gameOver g0 = true) ∧
      2 ≤ length (players g) ≤ 4 ∧ board g = replicate 7 (Some []) ∧
      registry_get reg' (roomId g) = Some g)).
Proof.
  unfold getRandomActiveGame.
  set (alive := fun key => match registry_get reg key with
                           | Some g => negb (gameOver g)
                           | None => false
                           end).
  destruct (List.filter alive reg.*1) as [|k0 ks] eqn:Hids.
  - pose proof (rand_below_lt 3 (d_numPlayers d)) as Hdraw.
    destruct (createGameRoom_fresh (pick_uuid d) (rand_below 3 (d_numPlayers d) + 2)
                (t_create1 d) (t_create2 d)) as (g & Hcreate & Hover & Hlen & _ & Hboard);
      [lia|].
    unfold registerGameRoom. rewrite Hcreate.
    eexists _, g. split; [reflexivity|]. split; [done|]. right.
    split; [|split; [lia|split; [done|apply registry_get_set_eq]]].
    intros key g0 Hget.
    assert (key ∈ List.filter alive reg.*1 → False) as Hnot.
    { rewrite Hids. apply not_elem_of_nil. }
    destruct (gameOver g0) eqn:Hg0; [done|]. destruct Hnot.
    apply list_elem_of_In, filter_In. split.
    + apply list_elem_of_In. by eapply registry_get_keys.
    + unfold alive. by rewrite Hget, Hg0.
  - rewrite <- Hids.
    assert (rand_below (length (List.filter alive reg.*1)) (d_pick d)
            < length (List.filter alive reg.*1)) as Hlt.
    { apply rand_below_lt. rewrite Hids. simpl. lia. }
    apply lookup_lt_is_Some_2 in Hlt as [key Hkey]. rewrite Hkey.
    apply list_elem_of_lookup_2, list_elem_of_In, filter_In in Hkey as [Hin Halive].
    unfold alive in Halive.
    destruct (registry_get reg key) as [g|] eqn:Hget; [|done].
    exists reg, g. split; [done|]. split; [by apply negb_true_iff|].
    left. split; [done|]. exists key. split; [by apply list_elem_of_In|done].
Qed.

(** *** Random events *)

Lemma StronglySorted_filter {A} (R : A → A → Prop) (f : A → bool) (l : list A) :
  StronglySorted R l → StronglySorted R (List.filter f l).
Proof.
  induction 1 as [|x l Hsorted IH Hall]; simpl; [constructor|].
  destruct (f x); [|done]. constructor; [done|].
  apply List.Forall_forall. intros y Hy. apply filter_In in Hy as [Hy _].
  by eapply List.Forall_forall in Hall.
Qed.

(** X7. [triggerRandomEvent] always names an event of the catalogue,
    reports the affected columns in increasing order and without repeats,
    all within the seven columns (column [c] is reported exactly when its
    draw exceeds 0.3), counts one event and leaves the board, the turn and
    the seating untouched. *)
Theorem random_event_columns (g : Game) (d : EventDraws) :
  ∃ g' event columns,
    triggerRandomEvent g d = (g', (Some event, columns)) ∧
    event ∈ RANDOM_EVENTS ∧
    StronglySorted lt columns ∧
    (∀ c, c ∈ columns ↔ c < 7 ∧ (3 # 10 < d_column d c)%Q) ∧
    eventCount g' = S (eventCount g) ∧ board g' = board g ∧
    currentTurn g' = currentTurn g ∧ players g' = players g.
Proof.
  unfold triggerRandomEvent.
  pose proof (rand_below_lt (length RANDOM_EVENTS) (d_event d)) as Hlt.
  destruct (RANDOM_EVENTS !! rand_below (length RANDOM_EVENTS) (d_event d))
    as [event|] eqn:Hevent.
  2: { apply lookup_ge_None in Hevent. simpl in *. lia. }
  eexists _, event, _. split; [reflexivity|].
  split; [by eapply list_elem_of_lookup_2|]. split.
  { apply StronglySorted_filter. repeat constructor. }
  split; [|done].
  intros c. rewrite list_elem_of_In, filter_In, in_seq, negb_true_iff.
  rewrite <- not_true_iff_false, Qle_bool_iff.
  split; intros [Hc Hq]; (split; [lia|]).
  - by apply Qnot_le_lt.
  - by apply Qlt_not_le.
Qed.

End SimulationExtras.

(** ** More on the WebSocket service *)
Module WebSocketServiceExtras.

Import WebSocketService WebSocketServiceFacts.

(** *** What every run of an operation keeps *)
Section Keeping.

Variable R : World → World → Prop.
Hypothesis R_refl : ∀ w, R w w.
Hypothesis R_trans : ∀ w1 w2 w3, R w1 w2 → R w2 w3 → R w1 w3.

Lemma keeps_ret {A} (a : A) : keeps R (ret a).
Proof. intros w. apply R_refl. Qed.

Lemma keeps_throw {A} (e : string) : keeps R (@throw World A e).
Proof. intros w. apply R_refl. Qed.

Lemma keeps_gets {A} (f : World → A) : keeps R (gets f).
Proof. intros w. apply R_refl. Qed.

Lemma keeps_bind {A B} (c : M World A) (k : A → M World B) :
  keeps R c → (∀ a, keeps R (k a)) → keeps R (bind c k).
Proof.
  intros Hc Hk w. unfold bind. specialize (Hc w).
  destruct (c w) as [w1 [a|e]]; simpl in *; [|done].
  eapply R_trans; [exact Hc|apply Hk].
Qed.

Lemma keeps_try_catch {A} (body : M World A) (handler : string → M World A) :
  keeps R body → (∀ e, keeps R (handler e)) → keeps R (try_catch body handler).
Proof.
  intros Hb Hh w. unfold try_catch. specialize (Hb w).
  destruct (body w) as [w1 [a|e]]; simpl in *; [done|].
  eapply R_trans; [exact Hb|apply Hh].
Qed.

Lemma keeps_forEach {A} (f : A → M World unit) (l : list A) :
  (∀ x, keeps R (f x)) → keeps R (forEach f l).
Proof.
  intros Hf. induction l as [|x l IH]; simpl; [apply keeps_ret|].
  apply keeps_bind; [apply Hf|by intros _].
Qed.

End Keeping.

Lemma quiet_refl (w : World) : quiet w w.
Proof. by repeat split. Qed.

Lemma quiet_trans (w1 w2 w3 : World) : quiet w1 w2 → quiet w2 w3 → quiet w1 w3.
Proof. unfold quiet. intros (? & ? & ?) (? & ? & ?). repeat split; congruence. Qed.

Lemma timersSet_emit (w : World) (ev : Event) :
  timersSet (mkWorld (service w) (trace w ++ [ev]))
  = timersSet w + (match ev with TimerSet _ => 1 | _ => 0 end).
Proof.
  unfold timersSet. simpl. rewrite List.filter_app, length_app.
  by destruct ev.
Qed.

Lemma keeps_quiet_emit (ev : Event) :
  (∀ ms, ev ≠ TimerSet ms) → keeps quiet (emit ev).
Proof.
  intros Hev w. unfold emit, modify. simpl. repeat split.
  rewrite timersSet_emit. destruct ev; try lia. by destruct (Hev ms).
Qed.

Lemma keeps_quiet_update (f : Service → Service) :
  (∀ s, isReconnecting (f s) = isReconnecting s ∧ autoReconnect (f s) = autoReconnect s) →
  keeps quiet (update f).
Proof. intros Hf w. unfold update, modify, quiet. simpl. destruct (Hf (service w)). done. Qed.

Lemma keeps_quiet_callHandler {A} (observe : nat → A → Event) (a : A) (h : Handler A) :
  (∀ k x ms, observe k x ≠ TimerSet ms) → keeps quiet (callHandler observe a h).
Proof.
  intros Hobs. unfold callHandler.
  apply keeps_bind; [apply quiet_trans|by apply keeps_quiet_emit|].
  intros _. destruct (h_call h a); [apply keeps_ret|apply keeps_throw]; apply quiet_refl.
Qed.

Lemma keeps_quiet_notifyErrorHandlers (e : Error) : keeps quiet (notifyErrorHandlers e).
Proof.
  unfold notifyErrorHandlers.
  apply keeps_bind; [apply quiet_trans|apply keeps_gets, quiet_refl|].
  intros hs. apply keeps_forEach; [apply quiet_refl|apply quiet_trans|].
  intros h. by apply keeps_quiet_callHandler.
Qed.

Lemma keeps_quiet_dispatch (hs : option (list (Handler Notice))) (m : Notice) :
  keeps quiet (match hs with
               | Some hs => forEach (callHandler MessageNotified m) hs
               | None => ret tt
               end).
Proof.
  destruct hs as [hs|]; [|apply keeps_ret, quiet_refl].
  apply keeps_forEach; [apply quiet_refl|apply quiet_trans|].
  intros h. by apply keeps_quiet_callHandler.
Qed.

Lemma keeps_quiet_notifyHandlers (messageType : string) (data : list (string * nat)) :
  keeps quiet (notifyHandlers messageType data).
Proof.
  unfold notifyHandlers.
  apply keeps_bind; [apply quiet_trans|apply keeps_gets, quiet_refl|]. intros hs.
  apply keeps_bind; [apply quiet_trans|apply keeps_quiet_dispatch|]. intros _.
  apply keeps_bind; [apply quiet_trans|apply keeps_gets, quiet_refl|]. intros star.
  apply keeps_quiet_dispatch.
Qed.

(** *** Reconnection *)

Lemma one_timer_refl (w : World) : one_timer w w.
Proof. split; [done|by left]. Qed.

Lemma one_timer_trans (w1 w2 w3 : World) :
  one_timer w1 w2 → one_timer w2 w3 → one_timer w1 w3.
Proof.
  intros [Hon1 Hoff1] [Hon2 Hoff2]. split.
  - intros Hon. destruct (Hon1 Hon) as [Hon' Ht]. destruct (Hon2 Hon') as [? Ht'].
    split; [done|congruence].
  - intros Hoff. destruct (Hoff1 Hoff) as [Ht|[Ht Hon']].
    + destruct (isReconnecting (service w2)) eqn:Hflag.
      * destruct (Hon2 eq_refl) as [_ Ht']. left. congruence.
      * destruct (Hoff2 eq_refl) as [Ht'|[Ht' ?]]; [left|right]; (split || idtac);
          (done || congruence).
    + destruct (Hon2 Hon') as [? Ht']. right. split; [congruence|done].
Qed.

Lemma quiet_one_timer (w w' : World) : quiet w w' → one_timer w w'.
Proof. intros (Hflag & _ & Htimers). split; [by intros <-|by left]. Qed.

Lemma stays_off_refl (w : World) : stays_off w w.
Proof. by intros ?. Qed.

Lemma stays_off_trans (w1 w2 w3 : World) :
  stays_off w1 w2 → stays_off w2 w3 → stays_off w1 w3.
Proof.
  intros H12 H23 Hoff. destruct (H12 Hoff) as [Hoff2 Ht].
  destruct (H23 Hoff2) as [? Ht']. split; [done|congruence].
Qed.

Lemma quiet_stays_off (w w' : World) : quiet w w' → stays_off w w'.
Proof. intros (_ & Hauto & Htimers) Hoff. split; congruence. Qed.

Lemma notify_then_timer (messageType : string) (data : list (string * nat)) (ms : nat)
    (w : World) :
  let w' := fst ((notifyHandlers messageType data ;; emit (TimerSet ms)) w) in
  isReconnecting (service w') = isReconnecting (service w) ∧
  autoReconnect (service w') = autoReconnect (service w) ∧
  (timersSet w' = timersSet w ∨ timersSet w' = S (timersSet w)).
Proof.
  cbv zeta. unfold bind.
  pose proof (keeps_quiet_notifyHandlers messageType data w) as Hq.
  destruct (notifyHandlers messageType data w) as [w1 [[]|e]]; simpl in *.
  - destruct Hq as (Hflag & Hauto & Htimers).
    unfold emit, modify. simpl. rewrite timersSet_emit, Htimers.
    split; [done|]. split; [done|]. right. lia.
  - destruct Hq as (Hflag & Hauto & Htimers). split; [done|]. split; [done|]. by left.
Qed.

Lemma attemptReconnect_flags (w : World) :
  let w' := fst (attemptReconnect w) in
  autoReconnect (service w') = autoReconnect (service w) ∧
  ((isReconnecting (service w) = true ∧ w' = w) ∨
   (isReconnecting (service w) = false ∧ autoReconnect (service w) = true ∧
    isReconnecting (service w') = true ∧
    (timersSet w' = timersSet w ∨ timersSet w' = S (timersSet w))) ∨
   (isReconnecting (service w) = false ∧ autoReconnect (service w) = false ∧ quiet w w') ∨
   (isReconnecting (service w) = false ∧ quiet w w')).
Proof.
  cbv zeta. unfold attemptReconnect.
  rewrite (bind_eq _ _ w w (service w)) by done.
  destruct (isReconnecting (service w)) eqn:Hflag.
  { split; [done|]. by left. }
  destruct (autoReconnect (service w) && _) eqn:Hcond.
  - apply andb_prop in Hcond as [Hauto _].
    erewrite bind_eq by reflexivity.
    erewrite bind_eq by reflexivity.
    match goal with |- context [fst (?run ?w1)] =>
      destruct (notify_then_timer "reconnecting"
                  [("attempt", reconnectAttempts (service w) + 1);
                   ("maxAttempts", maxReconnectAttempts (service w));
                   ("timeout", reconnectInterval (service w))]
                  (reconnectInterval (service w)) w1) as (Hf & Ha & Ht);
      set (w' := fst (run w1)) in *
    end.
    rewrite timersSet_emit in Ht. simpl in Hf, Ha, Ht. rewrite Nat.add_0_r in Ht.
    split; [exact Ha|]. right. left. done.
  - assert (keeps quiet
              (if maxReconnectAttempts (service w) <=? reconnectAttempts (service w)
               then notifyErrorHandlers
                      (WebSocketConnectionError "Maximum reconnection attempts reached") ;;
                    notifyHandlers "reconnect_failed"
                      [("attempts", reconnectAttempts (service w));
                       ("maxAttempts", maxReconnectAttempts (service w))]
               else ret tt)) as Hq.
    { destruct (_ <=? _); [|apply keeps_ret, quiet_refl].
      apply keeps_bind; [apply quiet_trans|apply keeps_quiet_notifyErrorHandlers|].
      intros _. apply keeps_quiet_notifyHandlers. }
    specialize (Hq w). split; [apply Hq|]. right. right. right. done.
Qed.

Lemma keeps_one_timer_attemptReconnect : keeps one_timer attemptReconnect.
Proof.
  intros w. destruct (attemptReconnect_flags w) as [_ Hcases]. cbv zeta in Hcases.
  destruct Hcases as [[Hon ->]|[(Hoff & _ & Hon' & Ht)|[(Hoff & _ & Hq)|[Hoff Hq]]]].
  - apply one_timer_refl.
  - split; [congruence|]. intros _. destruct Ht as [->| ->]; [by left|by right].
  - by apply quiet_one_timer.
  - by apply quiet_one_timer.
Qed.

Lemma keeps_stays_off_attemptReconnect : keeps stays_off attemptReconnect.
Proof.
  intros w Hoff. destruct (attemptReconnect_flags w) as [Hauto Hcases].
  cbv zeta in Hauto, Hcases. split; [congruence|].
  destruct Hcases as [[Hon ->]|[(_ & Hon & _)|[(_ & _ & Hq)|[_ Hq]]]]; [done|congruence|..].
  - apply Hq.
  - apply Hq.
Qed.

Section Inputs.

Context {Message : Type}.
Variable JSON_stringify : Message → result string.
Variable JSON_parse : string → result Incoming.
Variable wsHost : string.

Variable R : World → World → Prop.
Hypothesis R_refl : ∀ w, R w w.
Hypothesis R_trans : ∀ w1 w2 w3, R w1 w2 → R w2 w3 → R w1 w3.
Hypothesis R_quiet : ∀ w w', quiet w w' → R w w'.
Hypothesis R_attempt : keeps R attemptReconnect.

Lemma keeps_weaken {A} (c : M World A) : keeps quiet c → keeps R c.
Proof. intros Hc w. apply R_quiet, Hc. Qed.

Ltac quiet_update :=
  apply keeps_weaken, keeps_quiet_update; intros s; by repeat case_match.

Ltac step_bind := apply keeps_bind; [exact R_trans| |intros ?].

Lemma keeps_notConnected : keeps R notConnected.
Proof.
  unfold notConnected.
  step_bind; [by apply keeps_weaken, keeps_quiet_emit|].
  step_bind; [apply keeps_weaken, keeps_quiet_notifyErrorHandlers|].
  step_bind; [by apply keeps_gets|].
  step_bind; [|by apply keeps_ret].
  destruct (_ && _); [exact R_attempt|by apply keeps_ret].
Qed.

Lemma keeps_send (message : Message) : keeps R (send JSON_stringify message).
Proof.
  unfold send. step_bind; [by apply keeps_gets|].
  destruct (socket _) as [sock|]; [|apply keeps_notConnected].
  destruct (_ =? _); [|apply keeps_notConnected].
  apply keeps_try_catch; [exact R_trans| |].
  - step_bind; [|by apply keeps_ret].
    unfold transmit. destruct (JSON_stringify message) as [data|]; [|by apply keeps_throw].
    destruct (ws_send sock data); [|by apply keeps_throw].
    by apply keeps_weaken, keeps_quiet_emit.
  - intros e. step_bind; [by apply keeps_weaken, keeps_quiet_emit|].
    step_bind; [apply keeps_weaken, keeps_quiet_notifyErrorHandlers|].
    by apply keeps_ret.
Qed.

Lemma keeps_handleClose (code : nat) (reason : string) : keeps R (handleClose code reason).
Proof.
  unfold handleClose.
  step_bind; [by apply keeps_weaken, keeps_quiet_emit|].
  step_bind.
  { destruct (code =? 1000); [by apply keeps_ret|].
    apply keeps_weaken, keeps_quiet_notifyErrorHandlers. }
  step_bind; [apply keeps_weaken, keeps_quiet_notifyHandlers|].
  exact R_attempt.
Qed.

Lemma keeps_handleError : keeps R handleError.
Proof.
  unfold handleError.
  step_bind; [by apply keeps_weaken, keeps_quiet_emit|].
  apply keeps_weaken, keeps_quiet_notifyErrorHandlers.
Qed.

Lemma keeps_dispatchTo (key : string) (m : Notice) : keeps R (dispatchTo key m).
Proof.
  unfold dispatchTo. step_bind; [by apply keeps_gets|].
  apply keeps_weaken, keeps_quiet_dispatch.
Qed.

Lemma keeps_handleMessage (data : string) : keeps R (handleMessage JSON_parse data).
Proof.
  unfold handleMessage. apply keeps_try_catch; [exact R_trans| |].
  - destruct (JSON_parse data) as [incoming|e]; [|by apply keeps_throw].
    step_bind; [|apply keeps_dispatchTo].
    destruct (in_type incoming); [apply keeps_dispatchTo|by apply keeps_ret].
  - intros e. step_bind; [by apply keeps_weaken, keeps_quiet_emit|].
    apply keeps_weaken, keeps_quiet_notifyErrorHandlers.
Qed.

Lemma keeps_connect (created : result WebSocket) (pid : string) :
  keeps R (connect wsHost created pid).
Proof.
  unfold connect.
  step_bind; [quiet_update|]. step_bind; [quiet_update|].
  destruct created as [sock|e]; [quiet_update|].
  step_bind; [apply keeps_weaken, keeps_quiet_notifyErrorHandlers|].
  exact R_attempt.
Qed.

Lemma keeps_reconnectTimer (created : result WebSocket) :
  keeps R (reconnectTimer wsHost created).
Proof.
  unfold reconnectTimer.
  step_bind; [quiet_update|]. step_bind; [by apply keeps_gets|].
  destruct (playerId _) as [pid|]; [|by apply keeps_ret].
  destruct (String.eqb pid ""); [by apply keeps_ret|apply keeps_connect].
Qed.

Lemma keeps_registration (i : Input) :
  match i with
  | On _ _ | Unsubscribe _ _ | OnError _ | UnsubscribeError _ | Off _ => True
  | _ => False
  end →
  ∀ w, R w (react JSON_stringify JSON_parse wsHost w i).
Proof.
  destruct i; try done; intros _ w; simpl;
    apply R_quiet; unfold on, unsubscribe, onError, unsubscribeError, off,
                          update, modify, quiet; simpl;
    repeat case_match; done.
Qed.

Lemma react_keeps (i : Input) (w : World) :
  no_fresh_start i = true → R w (react JSON_stringify JSON_parse wsHost w i).
Proof.
  destruct i; try done; intros _; try (by apply keeps_registration); simpl.
  - apply keeps_handleMessage.
  - apply keeps_handleClose.
  - apply keeps_handleError.
  - apply keeps_reconnectTimer.
  - apply keeps_connect.
  - apply keeps_send.
Qed.

End Inputs.

(** X8. After the connection drops the service waits for at most one
    retry: over any sequence of socket messages, errors and closes, timer
    expiries, [connect] and [send] calls and handler registrations (that
    is, until the socket opens or the client disconnects or resets), it
    sets at most one reconnect timer, and none at all if it was already
    reconnecting, whatever the handlers do. *)
Theorem one_retry_per_drop {Message : Type} (JSON_stringify : Message → result string)
    (JSON_parse : string → result Incoming) (wsHost : string)
    (inputs : list Input) (w : World) :
  forallb no_fresh_start inputs = true →
  timersSet (reactAll JSON_stringify JSON_parse wsHost inputs w)
  ≤ timersSet w + (if isReconnecting (service w) then 0 else 1).
Proof.
  intros Hall.
  assert (one_timer w (reactAll JSON_stringify JSON_parse wsHost inputs w)) as [Hon Hoff].
  { revert w. induction inputs as [|i inputs IH]; intros w; [apply one_timer_refl|].
    simpl in Hall. apply andb_prop in Hall as [Hi Hall]. simpl.
    eapply one_timer_trans; [|by apply IH].
    apply react_keeps; try done.
    - apply one_timer_refl.
    - apply one_timer_trans.
    - apply quiet_one_timer.
    - apply keeps_one_timer_attemptReconnect. }
  destruct (isReconnecting (service w)).
  - destruct (Hon eq_refl) as [_ ->]. lia.
  - destruct (Hoff eq_refl) as [->|[-> _]]; lia.
Qed.

Lemma one_retry_per_drop_witness :
  forallb no_fresh_start failed_retry = true ∧
  timersSet (reactAll (fun _ : unit => Ok "{}") (fun _ => Throw "not JSON") "ws://host:8000"
                      failed_retry dropped_service)
  ≤ timersSet dropped_service + (if isReconnecting (service dropped_service) then 0 else 1).
Proof.
  split; [reflexivity|].
  apply (one_retry_per_drop (fun _ : unit => Ok "{}") (fun _ => Throw "not JSON")
                            "ws://host:8000" failed_retry dropped_service).
  reflexivity.
Defined.

Lemma react_stays_off {Message : Type} (JSON_stringify : Message → result string)
    (JSON_parse : string → result Incoming) (wsHost : string) (i : Input) (w : World) :
  stays_off w (react JSON_stringify JSON_parse wsHost w i).
Proof.
  assert (∀ created pid, keeps stays_off (connect wsHost created pid)) as Hconnect.
  { intros created pid.
    apply keeps_connect;
      first [apply stays_off_refl|apply stays_off_trans|apply quiet_stays_off
            |apply keeps_stays_off_attemptReconnect]. }
  destruct (no_fresh_start i) eqn:Hi.
  { apply react_keeps; try done;
      first [apply stays_off_refl|apply stays_off_trans|apply quiet_stays_off
            |apply keeps_stays_off_attemptReconnect]. }
  destruct i; try done; simpl.
  - unfold handleOpen.
    apply keeps_bind; [apply stays_off_trans| |intros _].
    { intros w0. apply quiet_stays_off. by apply keeps_quiet_emit. }
    apply keeps_bind; [apply stays_off_trans| |intros _].
    { intros w0 Hoff. unfold update, modify. simpl. split; [exact Hoff|reflexivity]. }
    apply keeps_bind; [apply stays_off_trans| |intros _].
    { intros w0 Hoff. unfold update, modify. simpl. split; [exact Hoff|reflexivity]. }
    intros w0. apply quiet_stays_off. apply keeps_quiet_notifyHandlers.
  - unfold resetConnection.
    apply keeps_bind; [apply stays_off_trans| |intros _].
    { intros w0 Hoff. unfold update, modify. simpl. split; [exact Hoff|reflexivity]. }
    apply keeps_bind; [apply stays_off_trans| |intros _].
    { intros w0 Hoff. unfold update, modify. simpl. split; [exact Hoff|reflexivity]. }
    apply keeps_bind; [apply stays_off_trans| |intros _].
    { intros w0 Hoff. unfold update, modify. simpl. split; [exact Hoff|reflexivity]. }
    apply keeps_bind; [apply stays_off_trans|apply keeps_gets, stays_off_refl|intros s0].
    destruct (playerId s0) as [pid|]; [|apply keeps_ret, stays_off_refl].
    destruct (String.eqb pid ""); [apply keeps_ret, stays_off_refl|apply Hconnect].
Qed.

(** X9. [disconnect] switches automatic reconnection off for good: no
    later event or call, a new [connect], an open socket or a
    [resetConnection] included, switches it on again, and no reconnect
    timer is ever set after it. *)
Theorem disconnect_is_final {Message : Type} (JSON_stringify : Message → result string)
    (JSON_parse : string → result Incoming) (wsHost : string)
    (inputs : list Input) (w : World) :
  let w' := reactAll JSON_stringify JSON_parse wsHost (Disconnect :: inputs) w in
  autoReconnect (service w') = false ∧ timersSet w' = timersSet w.
Proof.
  cbv zeta. unfold reactAll. cbn [fold_left react].
  assert (autoReconnect (service (fst (disconnect w))) = false
          ∧ timersSet (fst (disconnect w)) = timersSet w) as [Hoff Ht].
  { unfold disconnect, bind, update, modify. simpl. split; reflexivity. }
  rewrite <- Ht. clear Ht.
  generalize dependent (fst (disconnect w)). clear w.
  induction inputs as [|i inputs IH]; intros w0 Hoff; [split; [exact Hoff|reflexivity]|].
  cbn [fold_left].
  destruct (react_stays_off JSON_stringify JSON_parse wsHost i w0 Hoff) as [Hoff' Ht'].
  destruct (IH _ Hoff') as [Hoff'' Ht'']. split; [exact Hoff''|congruence].
Qed.

(** *** Incoming messages *)





Section Delivery.

Variable JSON_parse : string → result Incoming.




End Delivery.


(** *** Registration *)

Lemma addHandler_fresh {A} (h : Handler A) (hs : list (Handler A)) :
  h_key h ∉ h_key <$> hs → addHandler h hs = hs ++ [h].
Proof.
  intros Hfresh. unfold addHandler.
  destruct (existsb _ hs) eqn:Hex; [|done].
  apply existsb_exists in Hex as (h' & Hin & Heq%Nat.eqb_eq).
  destruct Hfresh. apply list_elem_of_fmap. exists h'. split; [done|].
  by apply list_elem_of_In.
Qed.

Lemma addHandler_again {A} (h : Handler A) (hs : list (Handler A)) :
  addHandler h (addHandler h hs) = addHandler h hs.
Proof.
  unfold addHandler. destruct (existsb _ hs) eqn:Hex.
  - by rewrite Hex.
  - rewrite existsb_app. simpl. by rewrite Nat.eqb_refl, orb_true_r.
Qed.

Lemma deleteHandler_fresh {A} (h : Handler A) (hs : list (Handler A)) :
  h_key h ∉ h_key <$> hs → deleteHandler h hs = hs.
Proof.
  unfold deleteHandler. induction hs as [|h' hs IH]; intros Hfresh; simpl; [done|].
  apply not_elem_of_cons in Hfresh as [Hne Hfresh].
  destruct (h_key h' =? h_key h) eqn:Heq; [apply Nat.eqb_eq in Heq; congruence|].
  simpl. by rewrite IH.
Qed.

Lemma deleteHandler_added {A} (h : Handler A) (hs : list (Handler A)) :
  h_key h ∉ h_key <$> hs → deleteHandler h (addHandler h hs) = hs.
Proof.
  intros Hfresh. rewrite addHandler_fresh by done.
  unfold deleteHandler. rewrite List.filter_app. simpl.
  rewrite Nat.eqb_refl. simpl. rewrite app_nil_r. by apply deleteHandler_fresh.
Qed.

(** X11. A callback registered with [on] is among the listeners of every
    message of that type; registering it again changes nothing (the
    handlers of a type are a set); and after the function that [on]
    returned has been called, every message has the listeners it had
    before the registration. *)
Theorem subscribe_then_unsubscribe (messageType : string) (h : Handler Notice) (w : World) :
  h_key h ∉ h_key <$> default [] (messageHandlers (service w) !! messageType) →
  let w1 := fst (on messageType h w) in
  let w2 := fst (unsubscribe messageType h w1) in
  (∀ incoming, in_type incoming = Some messageType → h ∈ listeners (service w1) incoming) ∧
  fst (on messageType h w1) = w1 ∧
  (∀ incoming, listeners (service w2) incoming = listeners (service w) incoming) ∧
  errorHandlers (service w2) = errorHandlers (service w) ∧
  trace w2 = trace w.
Proof.
  intros Hfresh. cbv zeta. unfold on, unsubscribe, update, modify. simpl.
  rewrite !lookup_insert_eq. simpl.
  split; [|split; [|split; [|done]]].
  - intros incoming Htype. unfold listeners. rewrite Htype. simpl.
    rewrite lookup_insert_eq. simpl. apply elem_of_app. left.
    rewrite addHandler_fresh by done. apply elem_of_app. right. by apply list_elem_of_singleton.
  - unfold with_messageHandlers. simpl. by rewrite addHandler_again, insert_insert_eq.
  - rewrite insert_insert_eq, deleteHandler_added by done.
    assert (∀ key, default [] (<[messageType :=
                       default [] (messageHandlers (service w) !! messageType)]>
                     (messageHandlers (service w)) !! key)
                   = default [] (messageHandlers (service w) !! key)) as Hkey.
    { intros key. destruct (decide (key = messageType)) as [->|Hne].
      - by rewrite lookup_insert_eq.
      - by rewrite lookup_insert_ne. }
    intros incoming. unfold listeners. simpl. rewrite Hkey.
    destruct (in_type incoming); by rewrite ?Hkey.
Qed.

Lemma subscribe_then_unsubscribe_witness :
  (7 ∉ h_key <$> default [] (messageHandlers (service dropped_service) !! "move_made")) ∧
  ∀ incoming,
    listeners (service (fst (unsubscribe "move_made" (mkHandler 7 (fun _ => Ok tt))
                               (fst (on "move_made" (mkHandler 7 (fun _ => Ok tt))
                                        dropped_service)))))
              incoming
    = listeners (service dropped_service) incoming.
Proof.
  assert (7 ∉ h_key <$> default [] (messageHandlers (service dropped_service) !! "move_made"))
    as Hfresh.
  { vm_compute. intros Hin. repeat (apply elem_of_cons in Hin as [Hin|Hin]; [lia|]).
    by apply elem_of_nil in Hin. }
  split; [exact Hfresh|].
  apply (subscribe_then_unsubscribe "move_made" (mkHandler 7 (fun _ => Ok tt))
                                    dropped_service Hfresh).
Defined.

End WebSocketServiceExtras.

Module UseGameExtras.

Import WebSocketService UseGame WebSocketServiceFacts UseGameFacts.

(** *** Messages of the server *)

Section ReceivingFacts.

Variable me : string.
Variable parseInt : string → option Z.

Lemma power_up_used_frame (message : PowerUpUsedMessage) (now1 now2 : Z)
    (st st' : GameState) :
  power_up_used me parseInt message now1 now2 st = Ok st' →
  winState st' = winState st ∧ activeEvents st' = activeEvents st ∧
  player st' = player st ∧ isConnected st' = isConnected st ∧
  connectionState st' = connectionState st ∧
  turnTimeLimit st' = turnTimeLimit st ∧
  ∃ entry, messages st' = messages st ++ [entry].
Proof.
  unfold power_up_used. cbv zeta.
  destruct (drop1 _) as [d1|]; [destruct (drop2 _) as [d2|]|].
  1: intros [= <-]; simpl; by eauto 10.
  all: destruct (bombed _); [destruct (effect_column _); [intros [= <-]; simpl; by eauto 10|done]|].
  all: destruct (flipped _ && _); intros [= <-]; simpl; by eauto 10.
Qed.

Lemma move_made_ok (message : MoveMadeMessage) (now : Z) (st st' : GameState) :
  move_made me parseInt message now st = Ok st' →
  st' = mkState (room st) (player st) (isConnected st)
                (String.eqb (mm_next_turn message) me)
                (appendCell (board st) (columnToString (mm_column message))
                   (mkCell (Some (mm_player_id message)) (mm_row message)
                           (parseInt (columnToString (mm_column message)))))
                (powerUps st) (activeEvents st)
                (isGravityFlipped st) (winState st) (messages st)
                None
                (connectionState st)
                (num_or (mm_turn_time_limit message) (turnTimeLimit st))
                (num_or (mm_turn_start_time message) (seconds now))
                (num_or (mm_turn_time_limit message) (turnTimeLimit st))
                (powerUpsPrototype st).
Proof.
  unfold move_made. cbv zeta. destruct (_ && _); [done|]. by intros [= <-].
Qed.

Lemma receive_winState (msg : ServerMessage) (st st' : GameState) :
  is_game_over msg = false →
  receive me parseInt msg st = Ok st' →
  winState st' = winState st.
Proof.
  intros Hnot Hrecv. destruct msg; try done; simpl in Hrecv.
  - injection Hrecv as <-. unfold player_joined. by destruct (room st).
  - injection Hrecv as <-. unfold player_left. by destruct (room st).
  - by injection Hrecv as <-.
  - by apply move_made_ok in Hrecv as ->.
  - by injection Hrecv as <-.
  - by injection Hrecv as <-.
  - by apply power_up_used_frame in Hrecv as (? & _).
  - unfold random_event in Hrecv. destruct (re_effect_result _); [|done].
    by injection Hrecv as <-.
  - by injection Hrecv as <-.
  - injection Hrecv as <-. unfold error_expired.
    destruct (error st) as [e|]; [|done]. by destruct (String.eqb e _).
Qed.

Lemma receiveAll_winState (msgs : list ServerMessage) (st : GameState) :
  forallb (fun msg => negb (is_game_over msg)) msgs = true →
  winState (receiveAll me parseInt msgs st) = winState st.
Proof.
  revert st. induction msgs as [|msg msgs IH]; intros st Hnone; simpl; [done|].
  simpl in Hnone. apply andb_prop in Hnone as [Hmsg Hrest].
  apply negb_true_iff in Hmsg.
  destruct (receive me parseInt msg st) as [st1|e] eqn:Hrecv; [|done].
  rewrite IH by done. by eapply receive_winState.
Qed.

Lemma kept_refl (inventory : gmap string PlayerPowerUp) : kept inventory inventory.
Proof.
  split.
  - intros k entry Hk. exists (remainingUses entry). by destruct entry.
  - intros k Hk. by left.
Qed.

Lemma kept_trans (i1 i2 i3 : gmap string PlayerPowerUp) :
  kept i1 i2 → kept i2 i3 → kept i1 i3.
Proof.
  intros [Hold12 Hnew12] [Hold23 Hnew23]. split.
  - intros k entry Hk. destruct (Hold12 k entry Hk) as [n Hn].
    destruct (Hold23 k _ Hn) as [n' Hn']. by exists n'.
  - intros k Hk. destruct (Hnew23 k Hk) as [Hk2|Hk2]; [by apply Hnew12|by right].
Qed.

Lemma power_up_used_kept (message : PowerUpUsedMessage) (now1 now2 : Z)
    (st st' : GameState) :
  power_up_used me parseInt message now1 now2 st = Ok st' →
  kept (powerUps st) (powerUps st').
Proof.
  intros Hused. apply power_up_used_keeps_turn in Hused as (_ & _ & _ & _ & ->).
  destruct (String.eqb _ me); [|apply kept_refl].
  destruct (powerUps st !! pm_power_up_id message) as [pu|] eqn:Hpu.
  - split.
    + intros k entry Hk. destruct (decide (k = pm_power_up_id message)) as [->|Hne].
      * rewrite lookup_insert_eq. exists (pm_remaining_uses message). congruence.
      * rewrite lookup_insert_ne by done. exists (remainingUses entry). by destruct entry.
    + intros k. destruct (decide (k = pm_power_up_id message)) as [->|Hne].
      * intros _. left. by rewrite Hpu.
      * rewrite lookup_insert_ne by done. by left.
  - destruct (_ && _) eqn:Hnew; [|apply kept_refl].
    apply andb_prop in Hnew as [Hin Hproto]. apply negb_true_iff, String.eqb_neq in Hproto.
    split.
    + intros k entry Hk. destruct (decide (k = pm_power_up_id message)) as [->|Hne].
      * congruence.
      * rewrite lookup_insert_ne by done. exists (remainingUses entry). by destruct entry.
    + intros k. destruct (decide (k = pm_power_up_id message)) as [->|Hne].
      * intros _. by right.
      * rewrite lookup_insert_ne by done. by left.
Qed.

Lemma receive_grows (msg : ServerMessage) (st st' : GameState) :
  receive me parseInt msg st = Ok st' →
  activeEvents st `prefix_of` activeEvents st' ∧
  messages st `prefix_of` messages st' ∧
  kept (powerUps st) (powerUps st') ∧
  player st' = player st ∧
  isConnected st' = isConnected st ∧
  connectionState st' = connectionState st.
Proof.
  intros Hrecv. pose proof (kept_refl (powerUps st)) as Hkept.
  destruct msg; simpl in Hrecv.
  - injection Hrecv as <-. unfold player_joined. by destruct (room st).
  - injection Hrecv as <-. unfold player_left. by destruct (room st).
  - by injection Hrecv as <-.
  - by apply move_made_ok in Hrecv as ->.
  - by injection Hrecv as <-.
  - by injection Hrecv as <-.
  - pose proof (power_up_used_kept _ _ _ _ _ Hrecv) as Hinv.
    pose proof (power_up_used_frame _ _ _ _ _ Hrecv)
      as (_ & -> & -> & -> & -> & _ & entry & ->).
    split; [done|]. split; [by apply prefix_app_r|]. done.
  - unfold random_event in Hrecv. destruct (re_effect_result _); [|done].
    injection Hrecv as <-. simpl. split; [by apply prefix_app_r|done].
  - by injection Hrecv as <-.
  - by injection Hrecv as <-.
  - injection Hrecv as <-. unfold error_expired.
    destruct (error st) as [e|]; [|done]. by destruct (String.eqb e _).
Qed.

(** X12. Whatever the server sends (all messages but chat), the client
    never drops what it has collected: an active random event is never
    removed (none expires), no entry of the message log is removed, and
    the player and the connection status are not touched.  An entry of
    the inventory is never removed and only its count ever changes; the
    only entries that appear are made by [power_up_used] from a name that
    the inventory inherits from [Object.prototype], other than
    [__proto__]. *)
Theorem messages_only_add (msgs : list ServerMessage) (st : GameState) :
  let st' := receiveAll me parseInt msgs st in
  activeEvents st `prefix_of` activeEvents st' ∧
  messages st `prefix_of` messages st' ∧
  kept (powerUps st) (powerUps st') ∧
  player st' = player st ∧
  isConnected st' = isConnected st ∧
  connectionState st' = connectionState st.
Proof.
  cbv zeta. revert st. induction msgs as [|msg msgs IH]; intros st; simpl.
  { split; [done|]. split; [done|]. split; [apply kept_refl|done]. }
  destruct (receive me parseInt msg st) as [st1|e] eqn:Hrecv.
  2: { split; [done|]. split; [done|]. split; [apply kept_refl|done]. }
  destruct (receive_grows _ _ _ Hrecv) as (Hev & Hlog & Hinv & Hpl & Hcon & Hcs).
  destruct (IH st1) as (Hev' & Hlog' & Hinv' & Hpl' & Hcon' & Hcs').
  split; [by etrans|]. split; [by etrans|]. split; [by eapply kept_trans|].
  split; [|split]; congruence.
Qed.






End ReceivingFacts.


(** *** The connection check *)

(** X13. The connection check takes over the reading of [isConnected()]
    and is idempotent; it never puts the client in the [failed] state;
    when it sees a change on an open socket the status becomes
    [connected]; and a client that is marked connected keeps whatever
    status it shows, [connecting], [disconnected] or [failed], as long as
    the socket stays open. *)
Theorem checkConnection_settles (nowConnected nowReconnecting : bool) (st : GameState) :
  let st' := checkConnection nowConnected nowReconnecting st in
  isConnected st' = nowConnected ∧
  checkConnection nowConnected nowReconnecting st' = st' ∧
  (connectionState st' = failed → connectionState st = failed) ∧
  (nowConnected = true → st' ≠ st → connectionState st' = connected) ∧
  (nowConnected = true → nowReconnecting = false → isConnected st = true →
   connectionState st ≠ reconnecting → st' = st).
Proof.
  cbv zeta. unfold checkConnection.
  destruct st as [r p c t b pu ev g win log err cs lim start rem]. simpl.
  destruct c, nowConnected, nowReconnecting, cs; simpl; repeat split; try done.
Qed.

Lemma checkConnection_status_ok (nowConnected nowReconnecting : bool) (st : GameState) :
  status_ok st → status_ok (checkConnection nowConnected nowReconnecting st).
Proof.
  unfold status_ok, checkConnection.
  destruct st as [r p c t b pu ev g win log err cs lim start rem]. simpl.
  intros [Hnot Hcon].
  destruct c, nowConnected, nowReconnecting, cs; simpl in *; split; try done; by auto.
Qed.

(** X14. Starting from a state whose status is not [failed], no event of
    the hook that sets the connection status (mounting, the connection
    check, an error of the socket service, a reconnection asked by the
    player) and no message of the server ever makes the status [failed];
    and whenever the status is [connected] the client is marked
    connected, so that no request is refused for a lost connection while
    the page shows a connection. *)
Theorem status_never_failed (me : string) (parseInt : string → option Z)
    (evs : list HookEvent) (st : GameState) :
  status_ok st → status_ok (hookRun me parseInt evs st).
Proof.
  revert st. induction evs as [|ev evs IH]; intros st Hok; simpl; [done|].
  destruct (hookStep me parseInt ev st) as [st1|e] eqn:Hstep; [|done].
  apply IH. destruct ev; simpl in Hstep.
  - destruct (receive_grows me parseInt msg st st1 Hstep) as (_ & _ & _ & _ & Hc & Hs).
    unfold status_ok. by rewrite Hc, Hs.
  - injection Hstep as <-. by apply checkConnection_status_ok.
  - injection Hstep as <-. split; simpl; by destruct nowReconnecting.
  - injection Hstep as <-. by split.
  - injection Hstep as <-. by split.
Qed.

Lemma status_never_failed_witness :
  status_ok initialState ∧
  status_ok (hookRun "player1" (fun _ => None) lost_connection initialState).
Proof.
  assert (status_ok initialState) as Hok by (by split).
  split; [exact Hok|].
  apply (status_never_failed "player1" (fun _ => None) lost_connection initialState Hok).
Defined.

(** *** Requests that pass the guards *)





Section Requests.

Context {TargetData : Type}.
Variable JSON_stringify : @ClientMessage TargetData → result string.
Variable errorListener : nat.
Variable nowReconnecting : nat → bool.












End Requests.


End UseGameExtras.

Module GamePageExtras.

Import UseGame GamePage UseGameExtras.

Lemma selecting_fresh : selecting freshPage.
Proof. split; by intros ?. Qed.

Lemma handlePowerUpTarget_selecting (col : Z) (p : Page) :
  (0 ≤ col < 7)%Z → selecting p →
  selecting (fst (handlePowerUpTarget col p)) ∧ Forall proper (snd (handlePowerUpTarget col p)).
Proof.
  intros Hcol Hselecting. pose proof Hselecting as [Hdata Hsel].
  unfold handlePowerUpTarget.
  destruct (powerUpSelectionData p) as [data|] eqn:Hp; [|by split; [|apply Forall_nil_2]].
  specialize (Hdata data eq_refl). clear Hselecting.
  destruct (String.eqb_spec (sd_id data) "double_drop") as [Hid|Hid].
  - destruct (powerUpSelection p) as [selection|] eqn:Hs; simpl.
    + destruct (Hsel selection eq_refl) as [(c1 & -> & Hc1) _]. simpl.
      split; [split; by intros ?|].
      apply Forall_cons_2; [|by apply Forall_nil_2].
      left. rewrite Hid. split; [done|]. split; [by exists c1|]. split; [by exists col|done].
    + split; [|by apply Forall_cons_2; [|apply Forall_nil_2]].
      split; simpl.
      * intros data' [= <-]. exact Hdata.
      * intros selection [= <-]. simpl. split; [by exists col|]. by rewrite Hid.
  - assert (powerUpSelection p = None) as Hnone.
    { destruct (powerUpSelection p) as [selection|]; [|done].
      destruct (Hsel selection eq_refl) as [_ [= Hid']]. done. }
    rewrite Hnone. simpl. split; [split; by intros ?|].
    apply Forall_cons_2; [|by apply Forall_nil_2].
    right. left. simpl. split; [|split; [done|by exists col]].
    unfold targeted in Hdata. apply elem_of_cons in Hdata as [Hd|Hdata]; done.
Qed.

Lemma handleColumnClick_selecting (col : Z) (p : Page) :
  (0 ≤ col < 7)%Z → selecting p →
  selecting (fst (handleColumnClick col p)) ∧ Forall proper (snd (handleColumnClick col p)).
Proof.
  intros Hcol Hp. unfold handleColumnClick.
  destruct (powerUpSelectionData p) as [data|] eqn:Hdata.
  - by apply handlePowerUpTarget_selecting.
  - simpl. split; [done|]. by apply Forall_cons_2; [|apply Forall_nil_2].
Qed.

Lemma handlePowerUpUse_selecting (game : GameState) (powerUpId : string) (p : Page) :
  powerUpSelectionData p = None → selecting p →
  selecting (fst (handlePowerUpUse game powerUpId p)) ∧
  Forall proper (snd (handlePowerUpUse game powerUpId p)).
Proof.
  intros Hnone Hp.
  assert (powerUpSelection p = None) as Hsel.
  { destruct Hp as [_ Hsel]. destruct (powerUpSelection p) as [selection|]; [|done].
    destruct (Hsel selection eq_refl) as [_ Hid]. by rewrite Hnone in Hid. }
  assert (∀ title, powerUpId ∈ targeted →
    selecting (mkPage (Some (mkSelectionData powerUpId true)) (powerUpSelection p)) ∧
    Forall proper [Toast title]) as Hselect.
  { intros title Hid. split; [|by apply Forall_cons_2; [|apply Forall_nil_2]].
    split; simpl; [by intros data [= <-]|]. by rewrite Hsel. }
  unfold handlePowerUpUse. cbv zeta.
  destruct (_ || _); [by split; [|apply Forall_nil_2]|].
  unfold targeted in Hselect.
  destruct (String.eqb_spec powerUpId "double_drop") as [Hid|_].
  { apply Hselect. rewrite Hid, !elem_of_cons. by eauto 6. }
  destruct (String.eqb_spec powerUpId "column_bomb") as [Hid|_]; simpl.
  { apply Hselect. rewrite Hid, !elem_of_cons. by eauto 6. }
  destruct (String.eqb_spec powerUpId "column_block") as [Hid|_]; simpl.
  { apply Hselect. rewrite Hid, !elem_of_cons. by eauto 6. }
  destruct (String.eqb_spec powerUpId "gravity_flip") as [Hid|_].
  { apply Hselect. rewrite Hid, !elem_of_cons. by eauto 6. }
  destruct (String.eqb_spec powerUpId "undo_move") as [Hid|_]; simpl.
  - split; [done|]. apply Forall_cons_2; [|by apply Forall_nil_2]. right. right. done.
  - split; [done|]. by apply Forall_cons_2; [|apply Forall_nil_2].
Qed.

Lemma click_selecting (game : GameState) (ev : UiEvent) (p : Page) :
  selecting p →
  selecting (fst (click game ev p)) ∧ Forall proper (snd (click game ev p)).
Proof.
  intros Hp. destruct ev as [col|key|]; simpl.
  - destruct ((0 <=? col)%Z && (col <? 7)%Z && isMyTurn game && isGameActive game) eqn:Hguard;
      [|by split; [|apply Forall_nil_2]].
    apply andb_prop in Hguard as [[[Hlo Hhi]%andb_prop _]%andb_prop _].
    apply handleColumnClick_selecting; [lia|done].
  - destruct (powerUps game !! key) as [powerUp|]; [|by split; [|apply Forall_nil_2]].
    destruct (roomActive game && _) eqn:Hguard; [|by split; [|apply Forall_nil_2]].
    apply andb_prop in Hguard as [_ Hguard].
    apply negb_true_iff, orb_false_iff in Hguard as [_ Hguard].
    apply negb_false_iff, andb_prop in Hguard as [_ Hguard].
    apply negb_true_iff, bool_decide_eq_false in Hguard.
    apply handlePowerUpUse_selecting; [|done].
    destruct (powerUpSelectionData p); [|done]. destruct Hguard. by eexists.
  - destruct (roomActive game && _); [|by split; [|apply Forall_nil_2]].
    simpl. split; [exact selecting_fresh|by apply Forall_nil_2].
Qed.

Lemma clicks_selecting (evs : list (GameState * UiEvent)) (p : Page) :
  selecting p →
  selecting (fst (clicks evs p)) ∧ Forall proper (snd (clicks evs p)).
Proof.
  revert p. induction evs as [|[game ev] evs IH]; intros p Hp; simpl.
  { split; [done|by apply Forall_nil_2]. }
  destruct (click_selecting game ev p Hp) as [Hp1 Hcalls1].
  destruct (click game ev p) as [p1 calls1]. simpl in Hp1, Hcalls1.
  destruct (IH p1 Hp1) as [Hp' Hcalls].
  destruct (clicks evs p1) as [p' calls]. simpl in *.
  split; [done|]. by apply Forall_app.
Qed.

(** X16. Whatever the player clicks and however the game changes between
    the clicks, every request the page makes is a proper one: a move on
    one of the columns 0 to 6; a double drop with two such columns, a
    column bomb, a column block or a gravity flip with one, an undo with
    none; and no other power-up is ever asked for.  A first column that
    the page has stored always belongs to a double drop that is still
    chosen. *)
Theorem page_requests_proper (evs : list (GameState * UiEvent)) :
  Forall proper (snd (clicks evs freshPage)) ∧
  selecting (fst (clicks evs freshPage)).
Proof.
  destruct (clicks_selecting evs freshPage selecting_fresh). done.
Qed.

(** X17. Once a [game_over] notice with a winner has arrived, no later
    message of the server but another [game_over] changes the recorded
    result, a [game_started] for a new game included; the game counts as
    inactive from then on and a click on the board does nothing. *)
Theorem game_over_stops_the_board (me : string) (parseInt : string → option Z)
    (message : GameOverMessage) (msgs : list ServerMessage) (st : GameState) :
  go_winner message ≠ "" →
  forallb (fun msg => negb (is_game_over msg)) msgs = true →
  let game := receiveAll me parseInt msgs (game_over message st) in
  winState game = mkWinState (Some (go_winner message)) (Some (go_win_type message))
                             (go_positions message) ∧
  isGameActive game = false ∧
  ∀ col p, click game (ColumnClicked col) p = (p, []).
Proof.
  intros Hwinner Hnone. cbv zeta.
  pose proof (receiveAll_winState me parseInt msgs (game_over message st) Hnone) as Hwin.
  simpl in Hwin.
  assert (isGameActive (receiveAll me parseInt msgs (game_over message st)) = false)
    as Hinactive.
  { unfold isGameActive. rewrite Hwin. simpl.
    apply String.eqb_neq in Hwinner. rewrite Hwinner. simpl. apply andb_false_r. }
  split; [done|]. split; [done|].
  intros col p. simpl. rewrite Hinactive. by rewrite andb_false_r.
Qed.

Lemma game_over_stops_the_board_witness :
  go_winner firstWon ≠ "" ∧
  forallb (fun msg => negb (is_game_over msg)) [GameStarted firstStarts 100000] = true ∧
  isGameActive (receiveAll "player1" (fun _ => None) [GameStarted firstStarts 100000]
                           (game_over firstWon initialState)) = false.
Proof.
  assert (go_winner firstWon ≠ "") as Hwinner by done.
  split; [exact Hwinner|]. split; [reflexivity|].
  apply (game_over_stops_the_board "player1" (fun _ => None) firstWon
           [GameStarted firstStarts 100000] initialState Hwinner eq_refl).
Defined.

(** X18. A double drop takes one click on its item and two on the board:
    on a page with no power-up chosen, for a player whose turn it is in
    an active game and who has a use left, the click on the item and the
    clicks on the columns [c1] and [c2] make exactly one request, the
    double drop with [c1] as first and [c2] as second column, and leave
    the page with nothing chosen. *)
Theorem double_drop_in_two_clicks (game0 game1 game2 : GameState) (key : string)
    (item inventory : PlayerPowerUp) (c1 c2 : Z) (p : Page) :
  selecting p → powerUpSelectionData p = None →
  powerUps game0 !! key = Some item → pu_id item = Some "double_drop" →
  (0 < remainingUses item)%Z →
  powerUps game0 !! "double_drop" = Some inventory → (0 < remainingUses inventory)%Z →
  roomActive game0 = true → isMyTurn game0 = true →
  isMyTurn game1 = true → isGameActive game1 = true →
  isMyTurn game2 = true → isGameActive game2 = true →
  (0 ≤ c1 < 7)%Z → (0 ≤ c2 < 7)%Z →
  clicks [(game0, PowerUpClicked key); (game1, ColumnClicked c1); (game2, ColumnClicked c2)] p
  = (freshPage,
     [Toast "Select first column"; Toast "Select second column";
      UsePowerUp "double_drop" (mkTarget (Some c1) (Some c2) None)]).
Proof.
  intros [_ Hsel] Hnone Hitem Hid Huses Hinv Hleft Hactive Hturn0 Hturn1 Hactive1
         Hturn2 Hactive2 Hc1 Hc2.
  assert (powerUpSelection p = None) as Hfirst.
  { destruct (powerUpSelection p) as [selection|]; [|done].
    destruct (Hsel selection eq_refl) as [_ Hchosen]. by rewrite Hnone in Hchosen. }
  assert (∀ c, (0 ≤ c < 7)%Z → (0 <=? c)%Z && (c <? 7)%Z = true) as Hcol.
  { intros c Hc. apply andb_true_intro. split; [apply Z.leb_le|apply Z.ltb_lt]; lia. }
  assert (∀ x, (0 < x)%Z → (x <=? 0)%Z = false) as Hpos.
  { intros x Hx. apply Z.leb_gt. lia. }
  unfold clicks, click.
  rewrite Hitem, Hnone, Hactive, Hturn0, (Hpos _ Huses). simpl.
  unfold handlePowerUpUse, readPowerUp. rewrite Hid. simpl.
  rewrite Hinv, Hturn0. simpl. rewrite (Hpos _ Hleft). simpl.
  rewrite (Hcol _ Hc1), Hturn1, Hactive1. simpl.
  unfold handleColumnClick, handlePowerUpTarget. simpl. rewrite Hfirst. simpl.
  rewrite (Hcol _ Hc2), Hturn2, Hactive2. simpl.
  reflexivity.
Qed.

Lemma double_drop_in_two_clicks_witness :
  clicks double_drop_clicks freshPage
  = (freshPage,
     [Toast "Select first column"; Toast "Select second column";
      UsePowerUp "double_drop" (mkTarget (Some 2%Z) (Some 5%Z) None)]).
Proof.
  set (item := powerUp "double_drop" "Double Drop" "Drop two discs in a single turn" 1).
  assert (powerUps running !! "double_drop" = Some item) as Hitem
    by (vm_compute; reflexivity).
  apply (double_drop_in_two_clicks running running running "double_drop" item item 2 5
           freshPage selecting_fresh eq_refl Hitem eq_refl);
    first [exact Hitem | reflexivity | simpl; lia].
Defined.

End GamePageExtras.
